(** * Console banking system (noign.cpp): ledger and persistence layer

    A shallow embedding of [src/main/noign.cpp].  The C++ [double] is the
    kernel's binary64 float, [int] is a 32-bit two's-complement integer kept
    in [Z] with its wrap-around written out, [std::string] is [string],
    [std::vector] is [list], and a pointer returned by [Bank::findAccount]
    is the index of the element it points to.  The clock, [std::cin] and
    the file are explicit arguments; what a menu action prints on
    [std::cout] is returned next to the new state. *)

From Stdlib Require Import ZArith String Ascii Floats Lia DecimalString.
From stdpp Require Import base option list strings.

Local Open Scope string_scope.
Local Open Scope list_scope.
Local Open Scope Z_scope.

(** ** Machine integers *)

Definition INT_MIN : Z := - 2 ^ 31.
Definition INT_MAX : Z := 2 ^ 31 - 1.

(** Signed 32-bit wrap-around of an [int] result. *)
Definition wrap_int (z : Z) : Z := (z + 2 ^ 31) mod 2 ^ 32 - 2 ^ 31.

(** ** Text streams

    A [std::stringstream] over a fixed text, as [std::getline] sees it:
    [Some rest] is a stream in good state with [rest] still unread, [None]
    is a stream with [eofbit] or [failbit] set.  [getline ss var delim]
    returns the stream after the call and the new content of [var]: on a
    stream that is not good nothing is extracted and [var] keeps its
    content; otherwise [var] is erased and receives the characters up to
    the first [delim] (which is consumed) or up to the end of the text. *)

Module Stream.

Definition t : Type := option string.

(** The text before and after the first [delim], if there is one. *)
Fixpoint split (delim : ascii) (s : string) : option (string * string) :=
  match s with
  | EmptyString => None
  | String c s' =>
      if Ascii.eqb c delim then Some (EmptyString, s')
      else match split delim s' with
           | Some (pre, post) => Some (String c pre, post)
           | None => None
           end
  end.

Definition getline (ss : t) (var : string) (delim : ascii) : t * string :=
  match ss with
  | None => (None, var)
  | Some rest =>
      match split delim rest with
      | Some (pre, post) => (Some post, pre)
      | None => (None, rest)
      end
  end.

End Stream.

Definition newline : ascii := "010"%char.

(** The lines that successive [getline(file, line)] calls deliver until
    one fails: a last line needs no terminator, and nothing follows a
    final newline. *)
Fixpoint getlines (s : string) : list string :=
  match s with
  | EmptyString => []
  | String c s' =>
      if Ascii.eqb c newline then EmptyString :: getlines s'
      else match getlines s' with
           | [] => [String c EmptyString]
           | l :: ls => String c l :: ls
           end
  end.

(** [n] times the character [c]. *)
Fixpoint fill (c : ascii) (n : nat) : string :=
  match n with
  | O => EmptyString
  | S n' => String c (fill c n')
  end.

(** [s.substr(n)] for [n] within the string. *)
Fixpoint substr (n : nat) (s : string) : string :=
  match n, s with
  | O, _ => s
  | S n', String _ s' => substr n' s'
  | S _, EmptyString => EmptyString
  end.

(** ** The standard library's number conversions

    [std::stoi] and [std::stod] return [None] where they throw
    ([invalid_argument], [out_of_range]); nothing in the program catches
    the exception.  [show_int] and [show_double] are [operator<<] on a
    stream in its default format, [show_fixed p] is [operator<<] after
    [fixed] and [setprecision(p)]. *)

Class StdLib : Type :=
  { stoi : string → option Z;
    stod : string → option float;
    show_int : Z → string;
    show_double : float → string;
    show_fixed : nat → float → string }.

(** *** A reference implementation

    The conversions as the C standard describes them and glibc carries
    them out: [strtol] in base 10 with the range of [int], [strtod] with
    its decimal, hexadecimal, infinity and NaN forms, correct rounding
    and [ERANGE], and [printf]'s [%g] with precision 6 and [%.pf].  The
    statements below that hold for every [StdLib] do not depend on it;
    it is what the concrete runs are evaluated with. *)

Module Glibc.

(** *** Lexing *)

Definition code (c : ascii) : Z := Z.of_nat (nat_of_ascii c).

(** [isspace] in the C locale. *)
Definition isspace (c : ascii) : bool :=
  (code c =? 32) || ((9 <=? code c) && (code c <=? 13)).

Fixpoint skip_space (s : string) : string :=
  match s with
  | String c s' => if isspace c then skip_space s' else s
  | EmptyString => s
  end.

(** An optional sign: whether it is [-], and the text after it. *)
Definition read_sign (s : string) : bool * string :=
  match s with
  | String "-" s' => (true, s')
  | String "+" s' => (false, s')
  | _ => (false, s)
  end.

Definition tolower (c : ascii) : ascii :=
  if (65 <=? code c) && (code c <=? 90)
  then ascii_of_nat (nat_of_ascii c + 32) else c.

(** The value of [c] as a digit in base 10 or 16. *)
Definition digit (base : Z) (c : ascii) : option Z :=
  let n := code (tolower c) in
  if (48 <=? n) && (n <=? 57) then Some (n - 48)
  else if (base =? 16) && (97 <=? n) && (n <=? 102) then Some (n - 87)
  else None.

(** The longest prefix of digits, most significant first, and the rest. *)
Fixpoint read_digits (base : Z) (s : string) : list Z * string :=
  match s with
  | String c s' =>
      match digit base c with
      | Some d => let '(ds, r) := read_digits base s' in (d :: ds, r)
      | None => ([], s)
      end
  | EmptyString => ([], s)
  end.

Definition number (base : Z) (ds : list Z) : Z :=
  fold_left (λ a d, base * a + d) ds 0.

(** The text after [p] when [s] starts with [p], letter case ignored. *)
Fixpoint after_ci (p s : string) : option string :=
  match p, s with
  | EmptyString, _ => Some s
  | String a p', String c s' =>
      if Ascii.eqb a (tolower c) then after_ci p' s' else None
  | String _ _, EmptyString => None
  end.

(** *** strtol in base 10, as [std::stoi] calls it *)

Definition stoi (s : string) : option Z :=
  let '(neg, s1) := read_sign (skip_space s) in
  let '(ds, _) := read_digits 10 s1 in
  match ds with
  | [] => None
  | _ :: _ =>
      let v := if neg then - number 10 ds else number 10 ds in
      if (INT_MIN <=? v) && (v <=? INT_MAX) then Some v else None
  end.

(** [operator<<(int)] *)
Definition show_int (z : Z) : string := NilZero.string_of_int (Z.to_int z).

(** *** strtod, as [std::stod] calls it *)

(** An exponent part [e], [E], [p] or [P] with its digits, when there
    is one: its value and nothing else is needed. *)
Definition read_exponent (mark : ascii) (s : string) : Z :=
  match s with
  | String c s' =>
      if Ascii.eqb (tolower c) mark then
        let '(neg, s1) := read_sign s' in
        let '(ds, _) := read_digits 10 s1 in
        match ds with
        | [] => 0
        | _ :: _ => if neg then - number 10 ds else number 10 ds
        end
      else 0
  | EmptyString => 0
  end.

(** Digits, an optional point and more digits: the digits before and
    after the point, and the rest. *)
Definition read_mantissa (base : Z) (s : string)
  : list Z * list Z * string :=
  let '(ds1, r1) := read_digits base s in
  match r1 with
  | String "." r1' => let '(ds2, r2) := read_digits base r1' in (ds1, ds2, r2)
  | _ => (ds1, [], r1)
  end.

(** The binary64 nearest to [n * b ^ k] for [n > 0] and [b] = 2 or 10,
    ties to even. *)
Definition nearest (neg : bool) (n : positive) (b : Z) (k : Z) : spec_float :=
  if b =? 2 then binary_normalize prec emax (if neg then Zneg n else Zpos n) k false
  else if 0 <=? k
  then binary_normalize prec emax
         ((if neg then Zneg n else Zpos n) * 10 ^ k) 0 false
  else SFdiv prec emax (S754_finite neg n 0)
                       (S754_finite false (Z.to_pos (10 ^ (- k))) 0).

(** Whether [m * 2 ^ e] is [n * b ^ k]. *)
Definition exactly (m : positive) (e : Z) (n : positive) (b k : Z) : bool :=
  Zpos m * 2 ^ Z.max e 0 * b ^ Z.max (- k) 0
  =? Zpos n * b ^ Z.max k 0 * 2 ^ Z.max (- e) 0.

(** Whether [n * b ^ k], rounded to 53 bits with no bound on the
    exponent, reaches the normal range, that is
    [2 ^ -1022 - 2 ^ -1076 <= n * b ^ k]. *)
Definition reaches_normal (n : positive) (b k : Z) : bool :=
  (2 ^ 54 - 1) * b ^ Z.max (- k) 0 <=? Zpos n * b ^ Z.max k 0 * 2 ^ 1076.

(** [ERANGE]: the result overflows, or it is not exact and the number
    is tiny, which glibc decides after rounding to 53 bits (so a number
    just below [DBL_MIN] can round to [DBL_MIN] and still be out of
    range). *)
Definition in_range (r : spec_float) (n : positive) (b k : Z) : bool :=
  match r with
  | S754_finite _ m e => exactly m e n b k || reaches_normal n b k
  | _ => false
  end.

Definition convert (neg : bool) (ds1 ds2 : list Z) (b : Z) (k : Z)
  : option float :=
  match number (if b =? 2 then 16 else 10) (ds1 ++ ds2) with
  | Zpos n =>
      let r := nearest neg n b k in
      if in_range r n b k then Some (SF2Prim r) else None
  | _ => Some (SF2Prim (S754_zero neg))
  end.

Definition stod (s : string) : option float :=
  let '(neg, s1) := read_sign (skip_space s) in
  match after_ci "inf" s1, after_ci "nan" s1, after_ci "0x" s1 with
  | Some _, _, _ => Some (if neg then neg_infinity else infinity)
  | _, Some _, _ => Some nan
  | _, _, Some s2 =>
      let '(ds1, ds2, r) := read_mantissa 16 s2 in
      match ds1 ++ ds2 with
      | [] => Some (SF2Prim (S754_zero neg))
      | _ :: _ =>
          convert neg ds1 ds2 2
                  (read_exponent "p" r - 4 * Z.of_nat (length ds2))
      end
  | None, None, None =>
      let '(ds1, ds2, r) := read_mantissa 10 s1 in
      match ds1 ++ ds2 with
      | [] => None
      | _ :: _ =>
          convert neg ds1 ds2 10
                  (read_exponent "e" r - Z.of_nat (length ds2))
      end
  end.

(** *** printf's %g and %f, as [operator<<(double)] calls them *)

Definition show_nat (z : Z) : string := NilZero.string_of_int (Z.to_int z).

(** Whether [10 ^ k <= num / den]. *)
Definition ge_pow10 (num den k : Z) : bool :=
  if 0 <=? k then den * 10 ^ k <=? num else den <=? num * 10 ^ (- k).

(** The decimal exponent of [num / den]: the largest [k], searched
    downwards from the start, with [10 ^ k <= num / den]. *)
Fixpoint exponent10 (fuel : nat) (k : Z) (num den : Z) : Z :=
  match fuel with
  | O => k
  | S fuel' =>
      if ge_pow10 num den k then k else exponent10 fuel' (k - 1) num den
  end.

(** [num / den] rounded to the nearest integer, ties to even. *)
Definition round_div (num den : Z) : Z :=
  let '(q, r) := Z.div_eucl num den in
  match 2 * r ?= den with
  | Lt => q
  | Gt => q + 1
  | Eq => if Z.even q then q else q + 1
  end.

(** [num / den * 10 ^ k], rounded. *)
Definition scaled (num den k : Z) : Z :=
  if 0 <=? k then round_div (num * 10 ^ k) den
  else round_div num (den * 10 ^ (- k)).

Fixpoint strip_zeros (s : string) : string :=
  match s with
  | String c s' =>
      match strip_zeros s' with
      | EmptyString => if Ascii.eqb c "0" then EmptyString else String c EmptyString
      | r => String c r
      end
  | EmptyString => EmptyString
  end.

Definition zeros : nat → string := fill "0".

Fixpoint take (n : nat) (s : string) : string :=
  match n, s with
  | S n', String c s' => String c (take n' s')
  | _, _ => EmptyString
  end.

Fixpoint drop (n : nat) (s : string) : string :=
  match n, s with
  | S n', String _ s' => drop n' s'
  | _, _ => s
  end.

Definition with_point (int frac : string) : string :=
  match frac with
  | EmptyString => int
  | _ => (int ++ "." ++ frac)%string
  end.

(** %g with precision 6 for the positive number [num / den]. *)
Definition format_g (num den : Z) : string :=
  if num =? 0 then "0" else
  let x0 := exponent10 640 309 num den in
  let d0 := scaled num den (5 - x0) in
  let '(d, x) := if d0 =? 10 ^ 6 then (10 ^ 5, x0 + 1) else (d0, x0) in
  let ds := show_nat d in
  if (-4 <=? x) && (x <? 6) then
    if 0 <=? x
    then with_point (take (Z.to_nat (x + 1)) ds)
                    (strip_zeros (drop (Z.to_nat (x + 1)) ds))
    else with_point "0" (strip_zeros (zeros (Z.to_nat (- x - 1)) ++ ds))
  else
    with_point (take 1 ds) (strip_zeros (drop 1 ds))
      ++ "e" ++ (if (x <? 0)%Z then "-" else "+")
      ++ (if (Z.abs x <? 10)%Z then "0" else "") ++ show_nat (Z.abs x).

(** %.[p]f for the positive number [num / den]. *)
Definition format_f (p : nat) (num den : Z) : string :=
  let d := scaled num den (Z.of_nat p) in
  let frac := show_nat (d mod 10 ^ Z.of_nat p) in
  with_point (show_nat (d / 10 ^ Z.of_nat p))
             (match p with
              | O => EmptyString
              | _ => (zeros (p - String.length frac) ++ frac)%string
              end).

Definition show_with (format : Z → Z → string) (x : float) : string :=
  match Prim2SF x with
  | S754_nan => "nan"
  | S754_infinity s => if s then "-inf" else "inf"
  | S754_zero s => ((if s then "-" else "") ++ format 0 1)%string
  | S754_finite s m e =>
      ((if s then "-" else "")
        ++ format (Zpos m * 2 ^ Z.max e 0) (2 ^ Z.max (- e) 0))%string
  end.

(** [os << x] in the default format.  A NaN of [float] has no sign: it
    is rendered as the library renders a NaN whose sign bit is clear
    (one whose sign bit is set is printed as -nan). *)
Definition show_double : float → string := show_with format_g.

(** [os << fixed << setprecision(p) << x] *)
Definition show_fixed (p : nat) : float → string := show_with (format_f p).

End Glibc.

Definition glibc : StdLib :=
  {| stoi := Glibc.stoi;
     stod := Glibc.stod;
     show_int := Glibc.show_int;
     show_double := Glibc.show_double;
     show_fixed := Glibc.show_fixed |}.

(** ** Utility *)

(** The members of [struct tm] that [currentTime] reads: what
    [localtime] has filled in for the reading of the clock. *)
Record tm : Type := mk_tm
  { tm_sec : Z;
    tm_min : Z;
    tm_hour : Z;
    tm_mday : Z;
    tm_mon : Z;
    tm_year : Z }.

(** [setw(w) << setfill(c)] before a value: filled with [c] on the left
    up to [w] characters, never cut. *)
Definition setw_fill (w : nat) (c : ascii) (s : string) : string :=
  fill c (w - String.length s) ++ s.

Section Clock.
Context `{StdLib}.

Definition currentTime (ltm : tm) : string :=
  show_int (wrap_int (1900 + tm_year ltm)) ++ "-"
    ++ setw_fill 2 "0" (show_int (wrap_int (1 + tm_mon ltm))) ++ "-"
    ++ setw_fill 2 "0" (show_int (tm_mday ltm)) ++ " "
    ++ setw_fill 2 "0" (show_int (tm_hour ltm)) ++ ":"
    ++ setw_fill 2 "0" (show_int (tm_min ltm)) ++ ":"
    ++ setw_fill 2 "0" (show_int (tm_sec ltm)).

End Clock.

(** ** Transaction *)

Module Transaction.

Record t : Type := mk
  { timestamp : string;
    type : string;
    amount : float }.

Section WithStdLib.
Context `{StdLib}.

Definition serialize (tr : t) : string :=
  timestamp tr ++ "|" ++ type tr ++ "|" ++ show_double (amount tr).

Definition deserialize (line : string) : option t :=
  let ss := Some line in
  let '(ss, ts) := Stream.getline ss "" "|" in
  let '(ss, ty) := Stream.getline ss "" "|" in
  let '(ss, token) := Stream.getline ss "" "|" in
  match stod token with
  | Some a => Some (mk ts ty a)
  | None => None
  end.

End WithStdLib.

End Transaction.

(** ** Account *)

Module Account.

Record t : Type := mk
  { id : Z;
    owner : string;
    balance : float;
    history : list Transaction.t }.

(** [Account()] *)
Definition default : t := mk 0 "" 0%float [].

(** [Account(int id, const string& owner)] *)
Definition new (id : Z) (owner : string) : t := mk id owner 0%float [].

Definition push_back (tr : Transaction.t) (acc : t) (bal : float) : t :=
  mk (id acc) (owner acc) bal (history acc ++ [tr]).

(** [now] is what [currentTime()] returns at the call. *)
Definition deposit (now : string) (amount : float) (acc : t) : t :=
  push_back (Transaction.mk now "DEPOSIT" amount) acc
            (balance acc + amount)%float.

Definition withdraw (now : string) (amount : float) (acc : t) : bool * t :=
  if (balance acc <? amount)%float then (false, acc)
  else (true,
        push_back (Transaction.mk now "WITHDRAW" amount) acc
                  (balance acc - amount)%float).

Definition transferOut (now : string) (amount : float) (acc : t) : t :=
  push_back (Transaction.mk now "TRANSFER_OUT" amount) acc
            (balance acc - amount)%float.

Definition transferIn (now : string) (amount : float) (acc : t) : t :=
  push_back (Transaction.mk now "TRANSFER_IN" amount) acc
            (balance acc + amount)%float.

Section WithStdLib.
Context `{StdLib}.

(** The line [printSummary] writes to [cout]. *)
Definition printSummary (acc : t) : string :=
  "ID: " ++ show_int (id acc) ++ " | Owner: " ++ owner acc
    ++ " | Balance: $" ++ show_fixed 2 (balance acc) ++ String newline "".



Definition serialize (acc : t) : string :=
  show_int (id acc) ++ ";" ++ owner acc ++ ";"
    ++ show_double (balance acc) ++ String newline ""
    ++ String.concat ""
         (map (λ tr, ("T:" ++ Transaction.serialize tr ++ String newline "")%string)
              (history acc))
    ++ "END" ++ String newline "".

(** The three fields of the header line.  The third [getline] writes
    into the [token] the first one has filled. *)
Definition deserialize_header (header : string) : option t :=
  let ss := Some header in
  let '(ss, token) := Stream.getline ss "" ";" in
  match stoi token with
  | None => None
  | Some id =>
      let '(ss, owner) := Stream.getline ss "" ";" in
      let '(ss, token) := Stream.getline ss token ";" in
      match stod token with
      | None => None
      | Some balance => Some (mk id owner balance [])
      end
  end.

(** The [while (getline(file, line))] loop of [deserialize]: [lines]
    is what is left of the file, and the result carries what is left
    after the block. *)
Fixpoint deserialize_loop (lines : list string) (acc : t)
  : option (t * list string) :=
  match lines with
  | [] => Some (acc, [])
  | line :: rest =>
      if String.eqb line "END" then Some (acc, rest)
      else if String.prefix "T:" line then
        match Transaction.deserialize (substr 2 line) with
        | None => None
        | Some tr =>
            deserialize_loop rest
              (mk (id acc) (owner acc) (balance acc) (history acc ++ [tr]))
        end
      else deserialize_loop rest acc
  end.

Definition deserialize (lines : list string) (header : string)
  : option (t * list string) :=
  match deserialize_header header with
  | None => None
  | Some acc => deserialize_loop lines acc
  end.

End WithStdLib.

End Account.

(** ** Bank: the in-memory operations *)

Module Bank.

Record t : Type := mk
  { accounts : list Account.t;
    nextId : Z }.

(** The members' initial values, before the constructor runs [load]. *)
Definition init : t := mk [] 1.

(** [name] is the line read from [cin]. *)
Definition createAccount (name : string) (b : t) : t * string :=
  (mk (accounts b ++ [Account.new (nextId b) name])
      (wrap_int (nextId b + 1)),
   "Account created successfully.").

(** The pointer [findAccount] returns is the position of the first
    element whose id matches, together with the element there. *)
Definition findAccount (id : Z) (b : t) : option (nat * Account.t) :=
  list_find (λ acc, Account.id acc = id) (accounts b).

Definition set_accounts (accs : list Account.t) (b : t) : t :=
  mk accs (nextId b).

(** [id] and [amount] are the values read from [cin]. *)
Definition deposit (now : string) (id : Z) (amount : float) (b : t)
  : t * string :=
  match findAccount id b with
  | None => (b, "Account not found.")
  | Some (i, _) =>
      (set_accounts (alter (Account.deposit now amount) i (accounts b)) b,
       "Deposit successful.")
  end.

Definition withdraw (now : string) (id : Z) (amount : float) (b : t)
  : t * string :=
  match findAccount id b with
  | None => (b, "Account not found.")
  | Some (i, acc) =>
      match Account.withdraw now amount acc with
      | (false, _) => (b, "Insufficient funds.")
      | (true, acc') =>
          (set_accounts (<[i := acc']> (accounts b)) b,
           "Withdrawal successful.")
      end
  end.

(** [accFrom] and [accTo] may be the same pointer: the second update
    reads the vector the first one has written. *)
Definition transfer (now1 now2 : string) (from to : Z) (amount : float)
           (b : t) : t * string :=
  match findAccount from b, findAccount to b with
  | Some (i, accFrom), Some (j, _) =>
      if (Account.balance accFrom <? amount)%float
      then (b, "Insufficient funds.")
      else
        let accs1 := alter (Account.transferOut now1 amount) i (accounts b) in
        let accs2 := alter (Account.transferIn now2 amount) j accs1 in
        (set_accounts accs2 b, "Transfer completed.")
  | _, _ => (b, "Invalid account ID.")
  end.

Section WithStdLib.
Context `{StdLib}.


Definition listAccounts (b : t) : string :=
  String newline "--- Accounts ---" ++ String newline ""
    ++ String.concat "" (map Account.printSummary (accounts b)).

(** The content written to the file. *)
Definition save (b : t) : string :=
  String.concat "" (map Account.serialize (accounts b)).

(** The [while (getline(file, line))] loop of [load].  Every turn
    takes at least one line, so [fuel] = the number of lines left is
    enough: [load_lines_nil], [load_lines_blank] and [load_lines_block]
    below are the loop's own equations. *)
Fixpoint load_loop (fuel : nat) (lines : list string) (b : t)
  : option t :=
  match lines, fuel with
  | [], _ => Some b
  | _ :: _, O => None
  | line :: rest, S fuel' =>
      if String.eqb line "" then load_loop fuel' rest b
      else
        match Account.deserialize rest line with
        | None => None
        | Some (acc, rest') =>
            load_loop fuel' rest'
              (mk (accounts b ++ [acc])
                  (Z.max (nextId b) (wrap_int (Account.id acc + 1))))
        end
  end.

Definition load_lines (lines : list string) (b : t) : option t :=
  load_loop (length lines) lines b.

(** [file] is the content of bank_data.txt, [None] when it cannot be
    opened; the result is [None] when a conversion throws. *)
Definition load (file : option string) (b : t) : option t :=
  match file with
  | None => Some b
  | Some content => load_lines (getlines content) b
  end.

(** The constructor: members initialised, then [load()]. *)
Definition start (file : option string) : option t := load file init.

End WithStdLib.

End Bank.

(** ** Runs of the program

    What the operator does after start-up, as the loop of [Bank::run]
    dispatches it: one constructor per menu entry that changes the
    ledger, with the values the action reads from [cin] and the clock
    readings it takes.  The entries that only print (list, history) and
    the saving exit leave the ledger as it is. *)

Inductive op : Type :=
  | Create (name : string)
  | Deposit (now : string) (id : Z) (amount : float)
  | Withdraw (now : string) (id : Z) (amount : float)
  | Transfer (now1 now2 : string) (from to : Z) (amount : float).

Definition step (o : op) (b : Bank.t) : Bank.t * string :=
  match o with
  | Create name => Bank.createAccount name b
  | Deposit now id a => Bank.deposit now id a b
  | Withdraw now id a => Bank.withdraw now id a b
  | Transfer now1 now2 from to a => Bank.transfer now1 now2 from to a b
  end.

Definition run (ops : list op) (b : Bank.t) : Bank.t :=
  fold_left (λ b o, fst (step o b)) ops b.

(** ** The properties the specification states *)

(** The contribution of one history entry to a running sum. *)
Definition signed (s : float) (tr : Transaction.t) : float :=
  let ty := Transaction.type tr in
  if String.eqb ty "DEPOSIT" || String.eqb ty "TRANSFER_IN"
  then (s + Transaction.amount tr)%float
  else if String.eqb ty "WITHDRAW" || String.eqb ty "TRANSFER_OUT"
  then (s - Transaction.amount tr)%float
  else s.

(** The signed sum of a history, added up in append order from 0. *)
Definition signed_sum (h : list Transaction.t) : float :=
  fold_left signed h 0%float.

Definition balanced (acc : Account.t) : Prop :=
  Account.balance acc = signed_sum (Account.history acc).

(** The sum of all balances, added up in the order of the vector. *)
Definition total (b : Bank.t) : float :=
  fold_left (λ s acc, (s + Account.balance acc)%float) (Bank.accounts b) 0%float.

(** The number of accounts a run creates. *)
Fixpoint creations (ops : list op) : Z :=
  match ops with
  | [] => 0
  | Create _ :: ops' => 1 + creations ops'
  | _ :: ops' => creations ops'
  end.

(** A double that is not NaN. *)
Definition is_number (x : float) : Prop := (x =? x)%float = true.

Definition nonneg (x : float) : Prop := (0 <=? x)%float = true.

(** The sign of a number that is not NaN: [true] for negative. *)
Definition sign_of (x : spec_float) : option bool :=
  match x with
  | S754_nan => None
  | S754_zero s | S754_infinity s | S754_finite s _ _ => Some s
  end.

(** What [load] does to [nextId] for one account read. *)
Definition bump (n : Z) (acc : Account.t) : Z :=
  Z.max n (wrap_int (Account.id acc + 1)).

(** A text file with the given lines, each one terminated. *)
Definition file_of (lines : list string) : string :=
  String.concat "" (map (λ l, (l ++ String newline "")%string) lines).

(** An amount a menu action accepts without harm: positive and finite. *)
Definition positive_amount (o : op) : Prop :=
  match o with
  | Create _ => True
  | Deposit _ _ a | Withdraw _ _ a | Transfer _ _ _ _ a =>
      (0 <? a)%float = true ∧ (a <? infinity)%float = true
  end.

(** The account [withdraw] leaves after it has succeeded. *)
Definition withdrawn (now : string) (a : float) (acc : Account.t) : Account.t :=
  Account.mk (Account.id acc) (Account.owner acc)
             (Account.balance acc - a)%float
             (Account.history acc ++ [Transaction.mk now "WITHDRAW" a]).

(** Every account id is below [nextId]. *)
Definition ids_below_next (b : Bank.t) : Prop :=
  Forall (λ acc, Account.id acc < Bank.nextId b) (Bank.accounts b).

(** [acc] at position [i] is the first account of the vector with the
    id: what the loop of [findAccount] stops at. *)
Definition first_match (id : Z) (accs : list Account.t) (i : nat)
           (acc : Account.t) : Prop :=
  accs !! i = Some acc ∧ Account.id acc = id
  ∧ ∀ j y, accs !! j = Some y → (j < i)%nat → Account.id y ≠ id.

(** No account of the vector has the id. *)
Definition absent (id : Z) (accs : list Account.t) : Prop :=
  Forall (λ acc, Account.id acc ≠ id) accs.

(** An id whose successor is still an [int]. *)
Definition id_in_range (acc : Account.t) : Prop :=
  INT_MIN ≤ Account.id acc < INT_MAX.

(** *** What a saved ledger has to read back

    [free_of c s]: the character [c] does not occur in [s]. *)
Fixpoint free_of (c : ascii) (s : string) : bool :=
  match s with
  | EmptyString => true
  | String d s' => negb (Ascii.eqb d c) && free_of c s'
  end.

Section Reread.
Context `{StdLib}.

(** The text fields and the rendered amount of an entry hold neither
    the field delimiter of a T line nor a line end. *)
Definition clean_tr (tr : Transaction.t) : Prop :=
  free_of "|" (Transaction.timestamp tr) = true
  ∧ free_of newline (Transaction.timestamp tr) = true
  ∧ free_of "|" (Transaction.type tr) = true
  ∧ free_of newline (Transaction.type tr) = true
  ∧ free_of "|" (show_double (Transaction.amount tr)) = true
  ∧ free_of newline (show_double (Transaction.amount tr)) = true.

(** The owner and the rendered id and balance hold neither the field
    delimiter of a header line nor a line end; the entries are clean. *)
Definition clean_acc (acc : Account.t) : Prop :=
  free_of ";" (show_int (Account.id acc)) = true
  ∧ free_of newline (show_int (Account.id acc)) = true
  ∧ free_of ";" (Account.owner acc) = true
  ∧ free_of newline (Account.owner acc) = true
  ∧ free_of ";" (show_double (Account.balance acc)) = true
  ∧ free_of newline (show_double (Account.balance acc)) = true
  ∧ Forall clean_tr (Account.history acc).

(** [tr'] is [tr] with its amount rendered and parsed again. *)
Definition reread_tr (tr tr' : Transaction.t) : Prop :=
  Transaction.timestamp tr' = Transaction.timestamp tr
  ∧ Transaction.type tr' = Transaction.type tr
  ∧ stod (show_double (Transaction.amount tr)) = Some (Transaction.amount tr').

(** [acc'] is [acc] with its id, its balance and the amounts of its
    entries rendered and parsed again. *)
Definition reread_acc (acc acc' : Account.t) : Prop :=
  stoi (show_int (Account.id acc)) = Some (Account.id acc')
  ∧ Account.owner acc' = Account.owner acc
  ∧ stod (show_double (Account.balance acc)) = Some (Account.balance acc')
  ∧ Forall2 reread_tr (Account.history acc) (Account.history acc').

(** The lines of one account block. *)
Definition header_of (acc : Account.t) : string :=
  show_int (Account.id acc) ++ ";" ++ Account.owner acc ++ ";"
    ++ show_double (Account.balance acc).

Definition tline (tr : Transaction.t) : string :=
  "T:" ++ Transaction.serialize tr.

Definition block_lines (acc : Account.t) : list string :=
  header_of acc :: map tline (Account.history acc) ++ ["END"].

End Reread.

(** *** Outcomes of the menu actions *)

(** The number of history entries in the whole ledger. *)
Definition entries (b : Bank.t) : nat :=
  sum_list_with (λ acc, length (Account.history acc)) (Bank.accounts b).

(** What a menu action prints when it gives up. *)
Definition refusals : list string :=
  ["Account not found."; "Insufficient funds."; "Invalid account ID."].

(** The accounts and the history entries an action adds, by what it
    prints. *)
Definition accounts_added (msg : string) : nat :=
  if String.eqb msg "Account created successfully." then 1 else 0.

Definition entries_added (msg : string) : nat :=
  if String.eqb msg "Deposit successful." then 1
  else if String.eqb msg "Withdrawal successful." then 1
  else if String.eqb msg "Transfer completed." then 2
  else 0.

(** What a run prints, action by action. *)
Fixpoint transcript (ops : list op) (b : Bank.t) : list string :=
  match ops with
  | [] => []
  | o :: ops' => snd (step o b) :: transcript ops' (fst (step o b))
  end.

(** [acc'] is [acc] some operations later: same id, same owner, and a
    history that starts with the history of [acc]. *)
Definition later (acc acc' : Account.t) : Prop :=
  Account.id acc' = Account.id acc
  ∧ Account.owner acc' = Account.owner acc
  ∧ Account.history acc `prefix_of` Account.history acc'.

(** The kinds of entry the member functions of [Account] write. *)
Definition kinds : list string :=
  ["DEPOSIT"; "WITHDRAW"; "TRANSFER_OUT"; "TRANSFER_IN"].

Definition known_kinds (acc : Account.t) : Prop :=
  Forall (λ tr, Transaction.type tr ∈ kinds) (Account.history acc).

(** *** Fields and timestamps *)

(** The account a header gives once the text of its id and the text
    taken for its balance are converted. *)
Definition header_account `{StdLib} (idt owner balt : string)
  : option Account.t :=
  match stoi idt with
  | None => None
  | Some id =>
      match stod balt with
      | None => None
      | Some balance => Some (Account.mk id owner balance [])
      end
  end.

(** A calendar date and a time of day in the years 1000 to 9999. *)
Definition calendar (ltm : tm) : Prop :=
  -900 ≤ tm_year ltm < 8100 ∧ 0 ≤ tm_mon ltm < 12 ∧ 1 ≤ tm_mday ltm ≤ 31
  ∧ 0 ≤ tm_hour ltm < 24 ∧ 0 ≤ tm_min ltm < 60 ∧ 0 ≤ tm_sec ltm ≤ 60.

(** [w] decimal digits. *)
Definition digits (w : nat) (s : string) : bool :=
  (String.length s =? w)%nat
  && forallb (λ c, existsb (Ascii.eqb c) (list_ascii_of_string "0123456789"))
             (list_ascii_of_string s).

(** [w] decimal digits that read as the number [n]: [n] in decimal,
    filled with zeros on the left up to the width [w]. *)
Definition field (w : nat) (s : string) (n : Z) : bool :=
  digits w s
  && match Glibc.stoi s with
     | Some m => m =? n
     | None => false
     end.

(** *** Concrete runs *)

(** Scenario 2 of the specification: two accounts, a deposit, a transfer. *)
Definition scenario2 : list op :=
  [Create "Alice"; Create "Bob";
   Deposit "2026-01-01 10:00:00" 1 50;
   Transfer "2026-01-01 10:01:00" "2026-01-01 10:01:00" 1 2 20].

Definition three_deposits : list op :=
  [Create "Alice";
   Deposit "2026-01-01 10:00:00" 1 0x1.86a0666666666p+16;
   Deposit "2026-01-01 10:01:00" 1 0x1.86a0666666666p+16;
   Deposit "2026-01-01 10:02:00" 1 0x1.86a0666666666p+16].

(** One account, opened and credited with 10. *)
Definition one_account : Bank.t :=
  run [Create "Alice"; Deposit "2026-01-01 10:00:00" 1 10] Bank.init.

(** Two accounts holding 2 and 2^53. *)
Definition small_and_large : Bank.t :=
  run [Create "Alice"; Create "Bob";
       Deposit "2026-01-01 10:00:00" 1 2;
       Deposit "2026-01-01 10:01:00" 2 0x1p+53] Bank.init.

(** The files with one empty account of id [INT_MAX] and [INT_MAX - 1]. *)
Definition int_max_file : string := file_of ["2147483647;Alice;0"; "END"].

Definition int_max_pred_file : string := file_of ["2147483646;Alice;0"; "END"].

(** A file with two blocks of the id 7, and the two accounts. *)
Definition two_sevens_file : string :=
  file_of ["7;Alice;10"; "END"; "7;Bob;20"; "END"].

Definition first_seven : Account.t := Account.mk 7 "Alice" 10 [].

Definition second_seven : Account.t := Account.mk 7 "Bob" 20 [].

(** One account after a deposit of 12345.67 (the nearest double). *)
Definition one_deposit : Bank.t :=
  run [Create "Alice"; Deposit "2026-01-01 10:00:00" 1 0x1.81cd5c28f5c29p+13]
      Bank.init.

(** A file whose only account has the balance NaN, and that account. *)
Definition nan_file : string := file_of ["1;Alice;nan"; "END"].

Definition nan_account : Account.t := Account.mk 1 "Alice" nan [].

(** ** The model at work *)

(** *** The reference conversions on known values *)

Example stoi_values :
  Glibc.stoi "42" = Some 42 ∧ Glibc.stoi "  -7;x" = Some (-7)
  ∧ Glibc.stoi "" = None ∧ Glibc.stoi "abc" = None
  ∧ Glibc.stoi "2147483647" = Some INT_MAX ∧ Glibc.stoi "2147483648" = None.
Proof. repeat split; reflexivity. Qed.

Example stod_values :
  Glibc.stod "100" = Some 100%float
  ∧ Glibc.stod "0.5" = Some 0.5%float
  ∧ Glibc.stod "0.1" = Some 0x1.999999999999ap-4%float
  ∧ Glibc.stod "1.23457e+06" = Some 1234570%float
  ∧ Glibc.stod "-2.5abc" = Some (-2.5)%float
  ∧ Glibc.stod "0x1.8p1" = Some 3%float
  ∧ Glibc.stod "inf" = Some infinity ∧ Glibc.stod "nan" = Some nan
  ∧ Glibc.stod "" = None ∧ Glibc.stod "abc" = None
  ∧ Glibc.stod "1e999" = None ∧ Glibc.stod "1e-999" = None.
Proof. repeat split; vm_compute; reflexivity. Qed.

(** [ERANGE] at the lower end of the normal range: just below [DBL_MIN]
    the result is [DBL_MIN] and the call fails all the same, closer to
    it the call succeeds; a number below the normal range is accepted
    only where it is a double. *)
Example stod_range :
  Glibc.stod "2.2250738585072014e-308" = Some 0x1p-1022%float
  ∧ Glibc.stod "2.2250738585072012e-308" = None
  ∧ Glibc.stod "2.2250738585072012596e-308" = Some 0x1p-1022%float
  ∧ Glibc.stod "2.2250738585072012595e-308" = None
  ∧ Glibc.stod "0x1.fffffffffffff8p-1023" = Some 0x1p-1022%float
  ∧ Glibc.stod "0x1.fffffffffffff7p-1023" = None
  ∧ Glibc.stod "0x1p-1074" = Some 0x0.0000000000001p-1022%float
  ∧ Glibc.stod "5e-324" = None
  ∧ Glibc.stod "1.7976931348623158e308" = Some 0x1.fffffffffffffp+1023%float
  ∧ Glibc.stod "1.7976931348623159e308" = None.
Proof. repeat split; vm_compute; reflexivity. Qed.

Example show_double_values :
  Glibc.show_double 100 = "100"
  ∧ Glibc.show_double 0.5 = "0.5"
  ∧ Glibc.show_double 0x1.999999999999ap-4 = "0.1"
  ∧ Glibc.show_double 0x1.81cd5c28f5c29p+13 = "12345.7"
  ∧ Glibc.show_double 1234567 = "1.23457e+06"
  ∧ Glibc.show_double 0x1p-20 = "9.53674e-07"
  ∧ Glibc.show_double 0 = "0" ∧ Glibc.show_double (-2.5) = "-2.5"
  ∧ Glibc.show_double infinity = "inf" ∧ Glibc.show_double nan = "nan".
Proof. repeat split; vm_compute; reflexivity. Qed.

Example show_fixed_values :
  Glibc.show_fixed 2 100 = "100.00"
  ∧ Glibc.show_fixed 2 0x1.81cd5c28f5c29p+13 = "12345.67"
  ∧ Glibc.show_fixed 2 0.125 = "0.12"
  ∧ Glibc.show_fixed 2 (-2.5) = "-2.50".
Proof. repeat split; vm_compute; reflexivity. Qed.

(** *** The header line, field by field *)

(** A header without delimiters is read as the id, and again as the
    balance: the third [getline] fails and [token] keeps the id. *)
Example header_with_one_field :
  Account.deserialize_header (H := glibc) "5" = Some (Account.mk 5 "" 5 []).
Proof. reflexivity. Qed.

Example header_with_three_fields :
  Account.deserialize_header (H := glibc) "1;Alice Smith;30"
  = Some (Account.mk 1 "Alice Smith" 30 []).
Proof. reflexivity. Qed.

(** An empty third field is read, and [stod] throws on it. *)
Example header_with_empty_balance :
  Account.deserialize_header (H := glibc) "1;Alice;" = None.
Proof. reflexivity. Qed.

(** *** The end-to-end scenarios of the specification *)

Example scenario_1 :
  Bank.accounts (run [Create "Alice"; Deposit "2026-01-01 10:00:00" 1 100] Bank.init)
  = [Account.mk 1 "Alice" 100 [Transaction.mk "2026-01-01 10:00:00" "DEPOSIT" 100]].
Proof. reflexivity. Qed.

Example scenario_2 :
  run scenario2 Bank.init =
    Bank.mk
      [Account.mk 1 "Alice" 30
         [Transaction.mk "2026-01-01 10:00:00" "DEPOSIT" 50;
          Transaction.mk "2026-01-01 10:01:00" "TRANSFER_OUT" 20];
       Account.mk 2 "Bob" 20
         [Transaction.mk "2026-01-01 10:01:00" "TRANSFER_IN" 20]]
      3.
Proof. reflexivity. Qed.

Example scenario_3 :
  Bank.withdraw "2026-01-01 10:05:00" 1 15 one_account
  = (one_account, "Insufficient funds.").
Proof. reflexivity. Qed.

Example scenario_4 :
  Bank.transfer "2026-01-01 10:05:00" "2026-01-01 10:05:00" 99 1 5 one_account
  = (one_account, "Invalid account ID.").
Proof. reflexivity. Qed.

Example scenario_5 :
  Bank.start (H := glibc) (Some (Bank.save (H := glibc) (run scenario2 Bank.init)))
  = Some (run scenario2 Bank.init)
  ∧ Account.id <$> Bank.accounts (run (scenario2 ++ [Create "Carol"]) Bank.init)
    = [1; 2; 3].
Proof. split; vm_compute; reflexivity. Qed.

Example scenario_6 :
  Bank.deposit "2026-01-01 10:05:00" 99 5 one_account
  = (one_account, "Account not found.").
Proof. reflexivity. Qed.

Example saved_file :
  Bank.save (H := glibc) (run scenario2 Bank.init)
  = file_of ["1;Alice;30";
             "T:2026-01-01 10:00:00|DEPOSIT|50";
             "T:2026-01-01 10:01:00|TRANSFER_OUT|20";
             "END";
             "2;Bob;20";
             "T:2026-01-01 10:01:00|TRANSFER_IN|20";
             "END"].
Proof. vm_compute. reflexivity. Qed.

(** ** Comparisons and signs of doubles *)

Lemma Prim2SF_zero : Prim2SF 0%float = S754_zero false.
Proof. reflexivity. Qed.

Lemma Prim2SF_infinity : Prim2SF infinity = S754_infinity false.
Proof. reflexivity. Qed.

Lemma SFcompare_antisym x y :
  SFcompare y x = CompOpp <$> SFcompare x y.
Proof.
  destruct x as [[]|[]| |[] mx ex], y as [[]|[]| |[] my ey]; simpl; try done.
  - rewrite (Z.compare_antisym ex ey).
    destruct (ex ?= ey); simpl; try done.
    change (Some (CompOpp (my ?= mx)%positive)
            = Some (CompOpp (CompOpp (mx ?= my)%positive))).
    by rewrite (Pos.compare_antisym mx my).
  - rewrite (Z.compare_antisym ex ey).
    destruct (ex ?= ey); simpl; try done.
    change (Some (my ?= mx)%positive = Some (CompOpp (mx ?= my)%positive)).
    by rewrite (Pos.compare_antisym mx my).
Qed.

Lemma is_number_spec x : is_number x ↔ Prim2SF x ≠ S754_nan.
Proof.
  unfold is_number. rewrite FloatAxioms.eqb_spec. unfold SFeqb.
  pose proof (Prim2SF_valid x) as Hv.
  destruct (Prim2SF x) as [[]|[]| |[] m e]; simpl; try done.
  - rewrite Z.compare_refl, Pos.compare_cont_refl. done.
  - rewrite Z.compare_refl, Pos.compare_cont_refl. done.
Qed.

(** For numbers, [not (x < y)] is [y <= x]. *)
Lemma ltb_false_leb x y :
  is_number x → is_number y →
  (x <? y)%float = false ↔ (y <=? x)%float = true.
Proof.
  rewrite !is_number_spec, FloatAxioms.ltb_spec, FloatAxioms.leb_spec. unfold SFltb, SFleb.
  rewrite (SFcompare_antisym (Prim2SF x) (Prim2SF y)). intros Hx Hy.
  destruct (SFcompare (Prim2SF x) (Prim2SF y)) as [[]|] eqn:Hc; simpl; try done.
  destruct (Prim2SF x) as [[]|[]| |[] ? ?], (Prim2SF y) as [[]|[]| |[] ? ?]; done.
Qed.

Lemma ltb_is_number_l x y : (x <? y)%float = true → is_number x.
Proof.
  rewrite is_number_spec, FloatAxioms.ltb_spec. unfold SFltb.
  by destruct (Prim2SF x) as [[]|[]| |[] ? ?].
Qed.

Lemma ltb_is_number_r x y : (x <? y)%float = true → is_number y.
Proof.
  rewrite is_number_spec, FloatAxioms.ltb_spec. unfold SFltb.
  destruct (Prim2SF x) as [[]|[]| |[] ? ?], (Prim2SF y) as [[]|[]| |[] ? ?]; done.
Qed.

Lemma leb_is_number_r x y : (x <=? y)%float = true → is_number y.
Proof.
  rewrite is_number_spec, FloatAxioms.leb_spec. unfold SFleb.
  destruct (Prim2SF x) as [[]|[]| |[] ? ?], (Prim2SF y) as [[]|[]| |[] ? ?]; done.
Qed.

Lemma leb_zero_spec x :
  (0 <=? x)%float = true ↔
  match Prim2SF x with
  | S754_zero _ => True
  | S754_infinity s | S754_finite s _ _ => s = false
  | S754_nan => False
  end.
Proof.
  rewrite FloatAxioms.leb_spec, Prim2SF_zero. unfold SFleb.
  destruct (Prim2SF x) as [[]|[]| |[] ? ?]; simpl; naive_solver.
Qed.

Lemma ltb_zero_spec x :
  (0 <? x)%float = true ↔
  match Prim2SF x with
  | S754_infinity s | S754_finite s _ _ => s = false
  | _ => False
  end.
Proof.
  rewrite FloatAxioms.ltb_spec, Prim2SF_zero. unfold SFltb.
  destruct (Prim2SF x) as [[]|[]| |[] ? ?]; simpl; naive_solver.
Qed.

Lemma ltb_zero_r_spec x :
  (x <? 0)%float = true ↔
  match Prim2SF x with
  | S754_infinity s | S754_finite s _ _ => s = true
  | _ => False
  end.
Proof.
  rewrite FloatAxioms.ltb_spec, Prim2SF_zero. unfold SFltb.
  destruct (Prim2SF x) as [[]|[]| |[] ? ?]; simpl; naive_solver.
Qed.

(** A balance that is not negative is not below a negative amount. *)
Lemma nonneg_not_below_negative b a :
  (0 <=? b)%float = true → (a <? 0)%float = true → (b <? a)%float = false.
Proof.
  rewrite leb_zero_spec, ltb_zero_r_spec, FloatAxioms.ltb_spec. unfold SFltb.
  destruct (Prim2SF b) as [[]|[]| |[] ? ?], (Prim2SF a) as [[]|[]| |[] ? ?];
    simpl; naive_solver.
Qed.

(** *** Rounding keeps the sign *)

Lemma shr_1_nonneg mrs : 0 ≤ shr_m mrs → 0 ≤ shr_m (shr_1 mrs).
Proof. destruct mrs as [[|[p|p|]|p] r s]; simpl; lia. Qed.

Lemma iter_pos_invariant {A} (f : A → A) (P : A → Prop) :
  (∀ x, P x → P (f x)) → ∀ n x, P x → P (SpecFloat.iter_pos f n x).
Proof. intros Hf. induction n; simpl; auto. Qed.

Lemma shr_fexp_nonneg m e l :
  0 ≤ m → 0 ≤ shr_m (fst (shr_fexp prec emax m e l)).
Proof.
  intros Hm. unfold shr_fexp, shr.
  assert (0 ≤ shr_m (shr_record_of_loc m l)) as H0 by (by destruct l as [|[]]).
  destruct (_ - e); simpl; try done.
  by apply (iter_pos_invariant shr_1 (λ mrs, 0 ≤ shr_m mrs)), H0; apply shr_1_nonneg.
Qed.

Lemma round_nearest_even_nonneg m l : 0 ≤ m → 0 ≤ round_nearest_even m l.
Proof.
  intros Hm. destruct l as [|[]]; simpl; try lia. destruct (Z.even m); lia.
Qed.

Lemma binary_round_aux_sign sx mx ex lx :
  0 ≤ mx → sign_of (binary_round_aux prec emax sx mx ex lx) = Some sx.
Proof.
  intros Hm. unfold binary_round_aux.
  pose proof (shr_fexp_nonneg mx ex lx Hm) as H1.
  destruct (shr_fexp prec emax mx ex lx) as [mrs' e']. simpl in H1.
  pose proof (shr_fexp_nonneg _ e' loc_Exact
                (round_nearest_even_nonneg _ (loc_of_shr_record mrs') H1)) as H2.
  destruct (shr_fexp prec emax _ e' loc_Exact) as [mrs'' e'']. simpl in H2.
  destruct (shr_m mrs''); try lia; simpl; [done|].
  by destruct (_ <=? _).
Qed.

Lemma binary_round_sign sx mx ex :
  sign_of (binary_round prec emax sx mx ex) = Some sx.
Proof.
  unfold binary_round. destruct (shl_align _ _ _) as [mz ez].
  by apply binary_round_aux_sign.
Qed.

Lemma binary_normalize_sign m e :
  0 ≤ m → sign_of (binary_normalize prec emax m e false) = Some false.
Proof.
  intros Hm. destruct m; simpl; [done | apply binary_round_sign | lia].
Qed.

(** *** Mantissas of valid doubles *)

Lemma digits2_pos_bounds m :
  2 ^ (Zpos (digits2_pos m) - 1) ≤ Zpos m < 2 ^ Zpos (digits2_pos m).
Proof.
  assert (∀ d, 0 < d → 2 ^ d = 2 * 2 ^ (d - 1)) as Hpow.
  { intros d Hd. rewrite <- Z.pow_succ_r by lia. f_equal. lia. }
  induction m as [m IH|m IH|]; simpl digits2_pos; [| |simpl; lia].
  - rewrite Pos2Z.inj_succ.
    replace (Z.succ (Zpos (digits2_pos m)) - 1) with (Zpos (digits2_pos m)) by lia.
    rewrite (Hpow (Z.succ _)) by lia.
    replace (Z.succ (Zpos (digits2_pos m)) - 1) with (Zpos (digits2_pos m)) by lia.
    rewrite (Hpow (Zpos (digits2_pos m))) in * by lia. lia.
  - rewrite Pos2Z.inj_succ.
    replace (Z.succ (Zpos (digits2_pos m)) - 1) with (Zpos (digits2_pos m)) by lia.
    rewrite (Hpow (Z.succ _)) by lia.
    replace (Z.succ (Zpos (digits2_pos m)) - 1) with (Zpos (digits2_pos m)) by lia.
    rewrite (Hpow (Zpos (digits2_pos m))) in * by lia. lia.
Qed.

Lemma iter_xO m d : Zpos (Pos.iter xO m d) = Zpos m * 2 ^ Zpos d.
Proof.
  induction d as [|d IH] using Pos.peano_ind.
  - simpl. lia.
  - rewrite Pos.iter_succ, Pos2Z.inj_xO, IH, Pos2Z.inj_succ, Z.pow_succ_r by lia.
    lia.
Qed.

Lemma shl_align_value mx ex ez :
  ez ≤ ex → Zpos (fst (shl_align mx ex ez)) = Zpos mx * 2 ^ (ex - ez).
Proof.
  intros He. unfold shl_align. destruct (ez - ex) as [|p|p] eqn:Hd; simpl.
  - replace (ex - ez) with 0 by lia. lia.
  - lia.
  - rewrite iter_xO. f_equal. f_equal. lia.
Qed.

(** Among valid positive doubles the larger exponent, or at equal
    exponents the larger mantissa, is the larger number. *)
Lemma aligned_le mb eb ma ea :
  bounded prec emax mb eb = true → bounded prec emax ma ea = true →
  SFcompare (S754_finite false mb eb) (S754_finite false ma ea) ≠ Some Lt →
  Zpos (fst (shl_align ma ea (Z.min eb ea)))
  ≤ Zpos (fst (shl_align mb eb (Z.min eb ea))).
Proof.
  unfold bounded, canonical_mantissa, fexp, SpecFloat.emin. simpl SFcompare.
  intros [Hb _]%andb_prop [Ha _]%andb_prop Hc.
  apply Z.eqb_eq in Ha, Hb.
  rewrite !shl_align_value by lia.
  pose proof (digits2_pos_bounds mb) as Dmb.
  pose proof (digits2_pos_bounds ma) as Dma.
  destruct (Z.compare_spec eb ea) as [He|He|He]; [| done |].
  - subst ea. rewrite Z.min_id, Z.sub_diag. simpl.
    change (Pos.compare_cont Eq mb ma) with (mb ?= ma)%positive in Hc.
    destruct (Pos.compare_spec mb ma); try done; lia.
  - replace (Z.min eb ea) with ea by lia.
    rewrite Z.sub_diag. simpl (2 ^ 0). 
    assert (Zpos (digits2_pos ma) ≤ prec) by lia.
    assert (Zpos (digits2_pos mb) = prec) as Hdb by lia.
    rewrite Hdb in Dmb.
    assert (Zpos ma < 2 ^ prec).
    { eapply Z.lt_le_trans; [apply Dma|]. apply Z.pow_le_mono_r; lia. }
    assert (2 ^ 1 ≤ 2 ^ (eb - ea)) by (apply Z.pow_le_mono_r; lia).
    change (2 ^ prec) with (2 * 2 ^ (prec - 1)) in *.
    nia.
Qed.

(** *** Sums and differences that stay at or above zero *)

Lemma sign_nonneg x : sign_of (Prim2SF x) = Some false → nonneg x.
Proof.
  unfold nonneg. rewrite leb_zero_spec.
  by destruct (Prim2SF x) as [[]|[]| |[] ? ?].
Qed.

Lemma nonneg_add b a :
  nonneg b → (0 <? a)%float = true → nonneg (b + a)%float.
Proof.
  unfold nonneg at 1. rewrite leb_zero_spec, ltb_zero_spec. intros Hb Ha.
  destruct (Prim2SF b) as [sb|sb| |sb mb eb] eqn:Eb,
           (Prim2SF a) as [sa|sa| |sa ma ea] eqn:Ea; try done; subst;
    try (unfold nonneg; rewrite leb_zero_spec, add_spec, Eb, Ea; by simpl).
  apply sign_nonneg. rewrite add_spec, Eb, Ea. simpl.
  apply binary_round_sign.
Qed.

Lemma nonneg_sub b a :
  nonneg b → (0 <? a)%float = true → (a <? infinity)%float = true →
  (b <? a)%float = false → nonneg (b - a)%float.
Proof.
  unfold nonneg at 1.
  rewrite leb_zero_spec, ltb_zero_spec, !FloatAxioms.ltb_spec, Prim2SF_infinity.
  unfold SFltb. intros Hb Ha Hfin Hlt.
  pose proof (Prim2SF_valid b) as Vb. pose proof (Prim2SF_valid a) as Va.
  destruct (Prim2SF b) as [sb|sb| |sb mb eb] eqn:Eb,
           (Prim2SF a) as [sa|sa| |sa ma ea] eqn:Ea; try done; subst;
    try (unfold nonneg; rewrite leb_zero_spec, sub_spec, Eb, Ea; by simpl).
  apply sign_nonneg. rewrite sub_spec, Eb, Ea.
  unfold SF64sub, SFsub, cond_Zopp. cbv zeta.
  apply binary_normalize_sign.
  assert (SFcompare (S754_finite false mb eb) (S754_finite false ma ea) ≠ Some Lt) as Hc.
  { intros Hc. by rewrite Hc in Hlt. }
  pose proof (aligned_le mb eb ma ea Vb Va Hc). simpl in *. lia.
Qed.

(** *** Rounding does not go below a double that is not above the exact result *)

Lemma shr_1_div2 mrs : 0 ≤ shr_m mrs → shr_m (shr_1 mrs) = shr_m mrs / 2.
Proof.
  destruct mrs as [[|[p|p|]|p] r s]; cbn [shr_1 shr_m]; intros Hm;
    try done; try lia.
  - apply Z.div_unique with 1; lia.
  - apply Z.div_unique with 0; lia.
Qed.

Lemma pow2_xO p : 2 ^ Zpos p~0 = 2 ^ Zpos p * 2 ^ Zpos p.
Proof.
  rewrite (Pos2Z.inj_xO p). replace (2 * Zpos p) with (Zpos p + Zpos p) by lia.
  by rewrite Z.pow_add_r by lia.
Qed.

Lemma pow2_xI p : 2 ^ Zpos p~1 = 2 * (2 ^ Zpos p * 2 ^ Zpos p).
Proof.
  rewrite (Pos2Z.inj_xI p). replace (2 * Zpos p + 1) with (Z.succ (Zpos p + Zpos p)) by lia.
  by rewrite Z.pow_succ_r, Z.pow_add_r by lia.
Qed.

Lemma iter_shr_1 p : ∀ mrs,
  0 ≤ shr_m mrs →
  shr_m (SpecFloat.iter_pos shr_1 p mrs) = shr_m mrs / 2 ^ Zpos p.
Proof.
  assert (∀ q mrs, 0 ≤ shr_m mrs → 0 ≤ shr_m (SpecFloat.iter_pos shr_1 q mrs)) as Hnn.
  { intros q. apply (iter_pos_invariant shr_1 (λ mrs, 0 ≤ shr_m mrs)), shr_1_nonneg. }
  assert (0 < 2 ^ Zpos p) by (apply Z.pow_pos_nonneg; lia).
  induction p as [p IH|p IH|]; intros mrs Hm; simpl SpecFloat.iter_pos.
  - assert (0 < 2 ^ Zpos p) by (apply Z.pow_pos_nonneg; lia).
    rewrite IH, IH, shr_1_div2 by auto using shr_1_nonneg.
    rewrite !Z.div_div by lia. by rewrite pow2_xI.
  - assert (0 < 2 ^ Zpos p) by (apply Z.pow_pos_nonneg; lia).
    rewrite IH, IH by auto.
    rewrite !Z.div_div by lia. by rewrite pow2_xO.
  - by apply shr_1_div2.
Qed.

(** [shr] moves the exponent up by [n] and divides the mantissa by [2 ^ n]. *)
Lemma shr_spec mrs e n :
  0 ≤ shr_m mrs →
  snd (shr mrs e n) = e + Z.max n 0
  ∧ shr_m (fst (shr mrs e n)) = shr_m mrs / 2 ^ Z.max n 0.
Proof.
  intros Hm. unfold shr. destruct n as [|p|p]; simpl.
  - split; [lia|]. by rewrite Z.div_1_r.
  - split; [lia|]. replace (Z.max (Zpos p) 0) with (Zpos p) by lia.
    by apply iter_shr_1.
  - split; [lia|]. by rewrite Z.div_1_r.
Qed.

Lemma shr_fexp_spec m e l :
  0 ≤ m →
  let n := Z.max (fexp prec emax (Zdigits2 m + e) - e) 0 in
  snd (shr_fexp prec emax m e l) = e + n
  ∧ shr_m (fst (shr_fexp prec emax m e l)) = m / 2 ^ n.
Proof.
  intros Hm n. unfold shr_fexp.
  assert (shr_m (shr_record_of_loc m l) = m) as Hrec by (by destruct l as [|[]]).
  destruct (shr_spec (shr_record_of_loc m l) e
              (fexp prec emax (Zdigits2 m + e) - e)) as [H1 H2]; [by rewrite Hrec|].
  by rewrite H1, H2, Hrec.
Qed.

Lemma round_nearest_even_ge m l : m ≤ round_nearest_even m l.
Proof. destruct l as [|[]]; simpl; try lia. destruct (Z.even m); lia. Qed.

(** Rounding a number that is at least a valid positive double gives at
    least that double. *)
Lemma binary_round_aux_ge mb eb mz e1 :
  bounded prec emax mb eb = true →
  e1 ≤ eb →
  Zpos mb * 2 ^ (eb - e1) ≤ Zpos mz →
  SFleb (S754_finite false mb eb)
        (binary_round_aux prec emax false (Zpos mz) e1 loc_Exact) = true.
Proof.
  unfold bounded, canonical_mantissa, fexp, SpecFloat.emin.
  intros [Hcan _]%andb_prop He Hm. apply Z.eqb_eq in Hcan.
  pose proof (digits2_pos_bounds mb) as Db.
  pose proof (digits2_pos_bounds mz) as Dz.
  set (db := Zpos (digits2_pos mb)) in *. set (dz := Zpos (digits2_pos mz)) in *.
  assert (0 < db) as Hdb by done. assert (0 < dz) as Hdz by done.
  change prec with 53 in *. change emax with 1024 in *.
  assert (db + eb ≤ dz + e1) as Hmag.
  { assert (2 ^ (db - 1 + (eb - e1)) < 2 ^ dz) as Hp.
    { rewrite Z.pow_add_r by lia.
      assert (0 < 2 ^ (eb - e1)) by (apply Z.pow_pos_nonneg; lia). nia. }
    apply Z.pow_lt_mono_r_iff in Hp; lia. }
  set (E := Z.max (dz + e1 - 53) (3 - 1024 - 53)) in *.
  assert (eb ≤ E) as HE by (unfold E; lia).
  unfold binary_round_aux.
  destruct (shr_fexp_spec (Zpos mz) e1 loc_Exact) as [S1e S1m]; [done|].
  change prec with 53 in *. change emax with 1024 in *.
  destruct (shr_fexp 53 1024 (Zpos mz) e1 loc_Exact) as [mrs' e'].
  simpl in S1e, S1m. unfold fexp, SpecFloat.emin in S1e, S1m.
  fold dz in S1e, S1m. fold E in S1e, S1m.
  replace (Z.max (E - e1) 0) with (E - e1) in * by lia.
  assert (e' = E) as -> by lia. clear S1e.
  set (m' := shr_m mrs') in *.
  assert (0 < 2 ^ (E - e1)) as Hpow1 by (apply Z.pow_pos_nonneg; lia).
  assert (1 ≤ m') as Hm'1.
  { rewrite S1m. apply Z.div_le_lower_bound; [done|].
    assert (2 ^ (E - e1) ≤ 2 ^ (dz - 1)) by (apply Z.pow_le_mono_r; unfold E; lia).
    lia. }
  pose proof (round_nearest_even_ge m' (loc_of_shr_record mrs')) as Hrne.
  set (m'' := round_nearest_even m' (loc_of_shr_record mrs')) in *.
  destruct (shr_fexp_spec m'' E loc_Exact) as [S2e S2m]; [lia|].
  change prec with 53 in *. change emax with 1024 in *.
  destruct (shr_fexp 53 1024 m'' E loc_Exact) as [mrs'' e''].
  simpl in S2e, S2m. unfold fexp, SpecFloat.emin in S2e, S2m.
  destruct m'' as [|p''|p''] eqn:Em''; try lia.
  simpl Zdigits2 in S2e, S2m.
  pose proof (digits2_pos_bounds p'') as D''.
  set (d'' := Zpos (digits2_pos p'')) in *.
  assert (0 < d'') as Hd'' by done.
  set (n2 := Z.max (Z.max (d'' + E - 53) (3 - 1024 - 53) - E) 0) in *.
  assert (0 ≤ n2 ≤ d'' - 1) as Hn2 by (unfold n2, E; lia).
  assert (0 < 2 ^ n2) as Hpow2 by (apply Z.pow_pos_nonneg; lia).
  assert (1 ≤ shr_m mrs'') as Hm3.
  { rewrite S2m. apply Z.div_le_lower_bound; [done|].
    assert (2 ^ n2 ≤ 2 ^ (d'' - 1)) by (apply Z.pow_le_mono_r; lia). lia. }
  destruct (shr_m mrs'') as [|p3|p3] eqn:Em3; try lia.
  destruct (e'' <=? 1024 - 53); [|done].
  unfold SFleb, SFcompare.
  destruct (Z.compare_spec eb e'') as [Heq|Hlt|Hgt]; [|done|lia].
  assert (n2 = 0) as Hn0 by lia. assert (E = eb) as HEeb by lia.
  rewrite Hn0, Z.div_1_r in S2m. injection S2m as ->.
  assert (Zpos mb ≤ m') as Hmb.
  { rewrite S1m, HEeb. apply Z.div_le_lower_bound; [by rewrite <- HEeb|]. lia. }
  change (Pos.compare_cont Eq mb p'') with (mb ?= p'')%positive.
  destruct (Pos.compare_spec mb p''); try done. lia.
Qed.

Lemma shl_align_spec m e e0 :
  snd (shl_align m e e0) ≤ e
  ∧ Zpos (fst (shl_align m e e0)) = Zpos m * 2 ^ (e - snd (shl_align m e e0)).
Proof.
  unfold shl_align. destruct (e0 - e) as [|d|d] eqn:Hd; simpl.
  - rewrite Z.sub_diag. simpl. lia.
  - rewrite Z.sub_diag. simpl. lia.
  - split; [lia|]. rewrite iter_xO. do 2 f_equal. lia.
Qed.

Lemma binary_round_ge mb eb M e :
  bounded prec emax mb eb = true →
  e ≤ eb →
  Zpos mb * 2 ^ (eb - e) ≤ Zpos M →
  SFleb (S754_finite false mb eb) (binary_round prec emax false M e) = true.
Proof.
  intros Hb He HM. unfold binary_round.
  destruct (shl_align_spec M e
              (fexp prec emax (Zpos (digits2_pos M) + e))) as [Hez Hmz].
  destruct (shl_align M e _) as [mz ez]. simpl in Hez, Hmz.
  apply binary_round_aux_ge; [done|lia|].
  rewrite Hmz. replace (eb - ez) with ((eb - e) + (e - ez)) by lia.
  rewrite Z.pow_add_r by lia.
  assert (0 < 2 ^ (e - ez)) by (apply Z.pow_pos_nonneg; lia). nia.
Qed.

(** Taking a negative amount off a balance at or above zero does not
    lower it. *)
Lemma sub_negative_ge b a :
  nonneg b → (a <? 0)%float = true → (b <=? b - a)%float = true.
Proof.
  unfold nonneg. rewrite leb_zero_spec, ltb_zero_r_spec. intros Hb Ha.
  rewrite FloatAxioms.leb_spec, sub_spec.
  pose proof (Prim2SF_valid b) as Vb.
  destruct (Prim2SF b) as [sb|sb| |sb mb eb] eqn:Eb,
           (Prim2SF a) as [sa|sa| |sa ma ea] eqn:Ea; try done; subst; try done.
  unfold SF64sub, SFsub, cond_Zopp, binary_normalize. cbv zeta.
  change (Zpos ?x - - Zpos ?y) with (Zpos (x + y)). cbv iota.
  apply binary_round_ge; [done|lia|].
  rewrite <- shl_align_value by lia. lia.
Qed.

(** ** Lookup and in-place update *)

Lemma findAccount_Some id b i acc :
  Bank.findAccount id b = Some (i, acc) →
  Bank.accounts b !! i = Some acc ∧ Account.id acc = id
  ∧ ∀ j y, Bank.accounts b !! j = Some y → (j < i)%nat → Account.id y ≠ id.
Proof. unfold Bank.findAccount. intros Hf. by apply list_find_Some in Hf. Qed.

Lemma findAccount_None id b :
  Bank.findAccount id b = None →
  Forall (λ acc, Account.id acc ≠ id) (Bank.accounts b).
Proof. unfold Bank.findAccount. intros Hf. by apply list_find_None in Hf. Qed.

Lemma findAccount_first id b i acc :
  first_match id (Bank.accounts b) i acc ↔ Bank.findAccount id b = Some (i, acc).
Proof. unfold first_match, Bank.findAccount. by rewrite list_find_Some. Qed.

Lemma findAccount_absent id b :
  absent id (Bank.accounts b) ↔ Bank.findAccount id b = None.
Proof. unfold absent, Bank.findAccount. by rewrite list_find_None. Qed.

Lemma alter_as_insert {A} (f : A → A) (l : list A) i x :
  l !! i = Some x → alter f i l = <[i := f x]> l.
Proof.
  revert i. induction l as [|y l IH]; intros [|i] Hl; simplify_eq/=; try done.
  f_equal. by apply IH.
Qed.

(** ** The signed sum follows every in-memory mutation *)

Lemma signed_sum_snoc h tr :
  signed_sum (h ++ [tr]) = signed (signed_sum h) tr.
Proof. unfold signed_sum. by rewrite fold_left_app. Qed.

Lemma balanced_new id name : balanced (Account.new id name).
Proof. reflexivity. Qed.

Lemma balanced_deposit now a acc :
  balanced acc → balanced (Account.deposit now a acc).
Proof.
  unfold balanced, Account.deposit, Account.push_back. simpl. intros Hb.
  by rewrite signed_sum_snoc, <- Hb.
Qed.

Lemma balanced_withdraw now a acc :
  balanced acc → balanced (snd (Account.withdraw now a acc)).
Proof.
  unfold balanced, Account.withdraw, Account.push_back. intros Hb.
  destruct (_ <? _)%float; simpl; [done|].
  by rewrite signed_sum_snoc, <- Hb.
Qed.

Lemma balanced_transferOut now a acc :
  balanced acc → balanced (Account.transferOut now a acc).
Proof.
  unfold balanced, Account.transferOut, Account.push_back. simpl. intros Hb.
  by rewrite signed_sum_snoc, <- Hb.
Qed.

Lemma balanced_transferIn now a acc :
  balanced acc → balanced (Account.transferIn now a acc).
Proof.
  unfold balanced, Account.transferIn, Account.push_back. simpl. intros Hb.
  by rewrite signed_sum_snoc, <- Hb.
Qed.

Lemma balanced_step o b :
  Forall balanced (Bank.accounts b) →
  Forall balanced (Bank.accounts (fst (step o b))).
Proof.
  intros Hb. destruct o as [name|now id a|now id a|now1 now2 from to a]; simpl.
  - apply Forall_app. split; [done|]. repeat constructor.
  - unfold Bank.deposit. destruct (Bank.findAccount id b) as [[i acc]|]; [|done].
    simpl. apply Forall_alter; [done|]. intros; by apply balanced_deposit.
  - unfold Bank.withdraw.
    destruct (Bank.findAccount id b) as [[i acc]|] eqn:Hf; [|done].
    apply findAccount_Some in Hf as (Hi & _ & _).
    pose proof (balanced_withdraw now a acc) as Hw.
    destruct (Account.withdraw now a acc) as [[|] acc']; [|done].
    simpl. apply Forall_insert; [done|]. apply Hw.
    by eapply Forall_lookup_1 in Hb.
  - unfold Bank.transfer.
    destruct (Bank.findAccount from b) as [[i accFrom]|]; [|done].
    destruct (Bank.findAccount to b) as [[j accTo]|]; [|done].
    destruct (_ <? _)%float; [done|]. simpl.
    apply Forall_alter; [apply Forall_alter; [done|]|].
    + intros; by apply balanced_transferOut.
    + intros; by apply balanced_transferIn.
Qed.

Lemma run_snoc ops o b : run (ops ++ [o]) b = fst (step o (run ops b)).
Proof. unfold run. by rewrite fold_left_app. Qed.

Lemma run_app ops1 ops2 b : run (ops1 ++ ops2) b = run ops2 (run ops1 b).
Proof. unfold run. by rewrite fold_left_app. Qed.

Lemma run_cons o ops b : run (o :: ops) b = run ops (fst (step o b)).
Proof. reflexivity. Qed.

(** ** The loops of [load] *)

Section Load.
Context `{StdLib}.

Lemma deserialize_loop_length lines : ∀ acc acc' rest,
  Account.deserialize_loop lines acc = Some (acc', rest) →
  (length rest ≤ length lines)%nat.
Proof.
  induction lines as [|line lines IH]; intros acc acc' rest; simpl.
  - intros [= _ <-]. done.
  - destruct (String.eqb line "END").
    + intros [= _ <-]. lia.
    + destruct (String.prefix "T:" line).
      * destruct (Transaction.deserialize _); [|done].
        intros Hl. apply IH in Hl. lia.
      * intros Hl. apply IH in Hl. lia.
Qed.

Lemma deserialize_length lines header acc rest :
  Account.deserialize lines header = Some (acc, rest) →
  (length rest ≤ length lines)%nat.
Proof.
  unfold Account.deserialize. destruct (Account.deserialize_header _); [|done].
  apply deserialize_loop_length.
Qed.

(** Any fuel that covers the lines left gives the same result. *)
Lemma load_loop_fuel n : ∀ m lines b,
  (length lines ≤ n)%nat → (length lines ≤ m)%nat →
  Bank.load_loop n lines b = Bank.load_loop m lines b.
Proof.
  induction n as [|n IH]; intros m [|line rest] b Hn Hm;
    try (by destruct m); try (simpl in *; lia).
  destruct m as [|m]; [simpl in *; lia|]. simpl in *.
  destruct (String.eqb line "").
  - apply IH; lia.
  - destruct (Account.deserialize rest line) as [[acc rest']|] eqn:Hd; [|done].
    apply deserialize_length in Hd. apply IH; lia.
Qed.

(** The loop of [Bank::load], turn by turn. *)
Lemma load_lines_nil b : Bank.load_lines [] b = Some b.
Proof. reflexivity. Qed.

Lemma load_lines_blank rest b :
  Bank.load_lines ("" :: rest) b = Bank.load_lines rest b.
Proof. reflexivity. Qed.

Lemma load_lines_block line rest b :
  line ≠ "" →
  Bank.load_lines (line :: rest) b =
    match Account.deserialize rest line with
    | None => None
    | Some (acc, rest') =>
        Bank.load_lines rest'
          (Bank.mk (Bank.accounts b ++ [acc])
             (Z.max (Bank.nextId b) (wrap_int (Account.id acc + 1))))
    end.
Proof.
  intros Hne. unfold Bank.load_lines. simpl.
  destruct (String.eqb_spec line ""); [done|].
  destruct (Account.deserialize rest line) as [[acc rest']|] eqn:Hd; [|done].
  apply deserialize_length in Hd. apply load_loop_fuel; lia.
Qed.

(** [load] only appends, and moves [nextId] by [max]. *)
Lemma load_loop_appends n : ∀ lines b b',
  Bank.load_loop n lines b = Some b' →
  ∃ accs, Bank.accounts b' = Bank.accounts b ++ accs
          ∧ Bank.nextId b' = fold_left bump accs (Bank.nextId b).
Proof.
  induction n as [|n IH]; intros [|line rest] b b'; simpl; try done.
  - intros [= <-]. exists []. by rewrite app_nil_r.
  - intros [= <-]. exists []. by rewrite app_nil_r.
  - destruct (String.eqb line ""); [apply IH|].
    destruct (Account.deserialize rest line) as [[acc rest']|]; [|done].
    intros Hl. apply IH in Hl as (accs & Ha & Hn). simpl in *.
    exists (acc :: accs). by rewrite Ha, Hn, <- app_assoc.
Qed.

End Load.

(** ** C1: balance and signed sum of the history *)

(** Two doubles are told apart by their decoded form. *)
Ltac float_neq :=
  let E := fresh "E" in
  intros E; apply (f_equal Prim2SF) in E; vm_compute in E; discriminate E.

(** C1, as the code has it.  For every sequence of create, deposit,
    withdraw and transfer operations, applied to a ledger in which every
    balance is the signed sum of its history (the ledger without a file in
    particular), every balance is again the signed sum of its history:
    DEPOSIT and TRANSFER_IN entries are added, WITHDRAW and TRANSFER_OUT
    entries subtracted, in append order, from 0, in double arithmetic. *)
Theorem balance_is_signed_sum (ops : list op) (b : Bank.t) :
  Forall balanced (Bank.accounts b) →
  Forall balanced (Bank.accounts (run ops b)).
Proof.
  revert b. induction ops as [|o ops IH]; intros b Hb; [done|].
  rewrite run_cons. by apply IH, balanced_step.
Qed.

Lemma balance_is_signed_sum_witness :
  Forall balanced (Bank.accounts Bank.init)
  ∧ Forall balanced (Bank.accounts (run scenario2 Bank.init)).
Proof.
  assert (Forall balanced (Bank.accounts Bank.init)) as H0 by constructor.
  split; [exact H0|]. exact (balance_is_signed_sum scenario2 Bank.init H0).
Defined.

(** C1 fails with [load] among the operations.  [load] takes the balance
    from the header line and the history from the T lines and compares
    nothing: a file with balance 100 and no entry is accepted.  The
    program's own file does it too: the default format keeps six
    significant digits, so three deposits of 100000.4 are saved as balance
    300001 with three entries of 100000. *)
Lemma load_breaks_signed_sum :
  (∃ b acc, Bank.start (H := glibc) (Some (file_of ["1;Alice;100"; "END"])) = Some b
            ∧ Bank.accounts b = [acc] ∧ ¬ balanced acc)
  ∧ (∃ b acc, Bank.start (H := glibc)
                (Some (Bank.save (H := glibc) (run three_deposits Bank.init))) = Some b
              ∧ Bank.accounts b = [acc] ∧ ¬ balanced acc).
Proof.
  split.
  - eexists _, _. split; [vm_compute; reflexivity|]. split; [reflexivity|].
    unfold balanced. simpl. float_neq.
  - eexists _, _. split; [vm_compute; reflexivity|]. split; [reflexivity|].
    unfold balanced. simpl. float_neq.
Qed.

(** ** C2: balances and zero *)

Lemma nonneg_step o b :
  positive_amount o →
  Forall (λ acc, nonneg (Account.balance acc)) (Bank.accounts b) →
  Forall (λ acc, nonneg (Account.balance acc)) (Bank.accounts (fst (step o b))).
Proof.
  intros Ho Hb. destruct o as [name|now id a|now id a|now1 now2 from to a]; simpl.
  - apply Forall_app. split; [done|]. by repeat constructor.
  - destruct Ho as [Hpos _]. unfold Bank.deposit.
    destruct (Bank.findAccount id b) as [[i acc]|]; [|done]. simpl.
    apply Forall_alter; [done|]. intros acc' _ Hacc. simpl. by apply nonneg_add.
  - destruct Ho as [Hpos Hfin]. unfold Bank.withdraw.
    destruct (Bank.findAccount id b) as [[i acc]|] eqn:Hf; [|done].
    apply findAccount_Some in Hf as (Hi & _ & _).
    eapply Forall_lookup_1 in Hi as Hacc; [|exact Hb]. simpl in Hacc.
    unfold Account.withdraw.
    destruct (Account.balance acc <? a)%float eqn:Hlt; [done|]. simpl.
    apply Forall_insert; [done|]. simpl. by apply nonneg_sub.
  - destruct Ho as [Hpos Hfin]. unfold Bank.transfer.
    destruct (Bank.findAccount from b) as [[i accFrom]|] eqn:Hf; [|done].
    destruct (Bank.findAccount to b) as [[j accTo]|]; [|done].
    destruct (Account.balance accFrom <? a)%float eqn:Hlt; [done|]. simpl.
    apply findAccount_Some in Hf as (Hi & _ & _).
    apply Forall_alter.
    + apply Forall_alter; [done|]. intros acc' Hi' Hacc. simpl.
      assert (acc' = accFrom) as -> by congruence. by apply nonneg_sub.
    + intros acc' _ Hacc. simpl. by apply nonneg_add.
Qed.

(** C2, as the code has it.  In every state reached through create,
    deposit, withdraw and transfer with amounts that are positive and
    finite, from a ledger whose balances are at or above zero (the ledger
    without a file in particular), every balance is at or above zero. *)
Theorem balances_stay_nonneg (ops : list op) (b : Bank.t) :
  Forall positive_amount ops →
  Forall (λ acc, nonneg (Account.balance acc)) (Bank.accounts b) →
  Forall (λ acc, nonneg (Account.balance acc)) (Bank.accounts (run ops b)).
Proof.
  revert b. induction ops as [|o ops IH]; intros b Hops Hb; [done|].
  apply Forall_cons in Hops as [Ho Hops].
  rewrite run_cons. by apply IH, nonneg_step.
Qed.

Lemma balances_stay_nonneg_witness :
  Forall (λ acc, nonneg (Account.balance acc))
         (Bank.accounts (run scenario2 Bank.init)).
Proof.
  apply (balances_stay_nonneg scenario2 Bank.init).
  - repeat constructor.
  - constructor.
Defined.

(** C2 fails: [Bank::deposit] passes any amount on, so a deposit of -5
    into a new account leaves the balance -5. *)
Lemma deposit_makes_balance_negative :
  ∃ acc, Bank.accounts (run [Create "Alice"; Deposit "2026-01-01 10:00:00" 1 (-5)]
                            Bank.init) = [acc]
         ∧ (Account.balance acc <? 0)%float = true
         ∧ (0 <=? Account.balance acc)%float = false.
Proof. eexists. split; [reflexivity|]. split; reflexivity. Qed.

(** ** C3: what a transfer changes *)

Lemma transfer_failed now1 now2 from to a b :
  snd (Bank.transfer now1 now2 from to a b) ≠ "Transfer completed." →
  fst (Bank.transfer now1 now2 from to a b) = b.
Proof.
  unfold Bank.transfer.
  destruct (Bank.findAccount from b) as [[i accFrom]|]; [|done].
  destruct (Bank.findAccount to b) as [[j accTo]|]; [|done].
  by destruct (_ <? _)%float.
Qed.

Lemma transfer_missing now1 now2 from to a b :
  Bank.findAccount from b = None ∨ Bank.findAccount to b = None →
  Bank.transfer now1 now2 from to a b = (b, "Invalid account ID.").
Proof.
  unfold Bank.transfer. intros [-> | ->]; [done|].
  by destruct (Bank.findAccount from b) as [[i accFrom]|].
Qed.

Lemma transfer_insufficient now1 now2 from to a b i accFrom :
  Bank.findAccount from b = Some (i, accFrom) →
  is_Some (Bank.findAccount to b) →
  (Account.balance accFrom <? a)%float = true →
  Bank.transfer now1 now2 from to a b = (b, "Insufficient funds.").
Proof.
  unfold Bank.transfer. intros -> [[j accTo] ->] ->. done.
Qed.

(** C3, as the code has it, for every ledger and every transfer.
    Where one of the two ids is in no account the ledger is left as it
    was, with "Invalid account ID.".  Where both are found ([findAccount]
    stops at the first account with the id) and the source balance is
    below the amount, the ledger is left as it was, with "Insufficient
    funds.".  Otherwise, for two different ids, the transfer completes:
    the source account gets a TRANSFER_OUT entry and the balance [b - a],
    the destination a TRANSFER_IN entry and the balance [b + a] (as
    doubles), and no other account, not the number of accounts and not
    [nextId] changes.  Whatever its arguments, a transfer that does not
    report completion leaves the ledger as it was. *)
Theorem transfer_moves_amount
    (now1 now2 : string) (from to : Z) (a : float) (b : Bank.t) :
  let r := Bank.transfer now1 now2 from to a b in
  (absent from (Bank.accounts b) ∨ absent to (Bank.accounts b) →
   r = (b, "Invalid account ID."))
  ∧ (∀ i accFrom j accTo,
       first_match from (Bank.accounts b) i accFrom →
       first_match to (Bank.accounts b) j accTo →
       ((Account.balance accFrom <? a)%float = true →
        r = (b, "Insufficient funds."))
       ∧ ((Account.balance accFrom <? a)%float = false → from ≠ to →
          snd r = "Transfer completed."
          ∧ Bank.accounts (fst r) !! i
            = Some (Account.mk (Account.id accFrom) (Account.owner accFrom)
                      (Account.balance accFrom - a)%float
                      (Account.history accFrom
                         ++ [Transaction.mk now1 "TRANSFER_OUT" a]))
          ∧ Bank.accounts (fst r) !! j
            = Some (Account.mk (Account.id accTo) (Account.owner accTo)
                      (Account.balance accTo + a)%float
                      (Account.history accTo
                         ++ [Transaction.mk now2 "TRANSFER_IN" a]))
          ∧ (∀ k, k ≠ i → k ≠ j →
               Bank.accounts (fst r) !! k = Bank.accounts b !! k)
          ∧ length (Bank.accounts (fst r)) = length (Bank.accounts b)
          ∧ Bank.nextId (fst r) = Bank.nextId b))
  ∧ (snd r ≠ "Transfer completed." → fst r = b).
Proof.
  intros r. split; [|split].
  - intros Hmiss. apply transfer_missing.
    destruct Hmiss as [Hm|Hm]; apply findAccount_absent in Hm; auto.
  - intros i accFrom j accTo Hf Ht.
    apply findAccount_first in Hf, Ht. split.
    + intros Hlt. by apply (transfer_insufficient _ _ _ _ _ _ i accFrom).
    + intros Hlt Hne.
      assert (r = (Bank.set_accounts
                     (alter (Account.transferIn now2 a) j
                        (alter (Account.transferOut now1 a) i (Bank.accounts b))) b,
                   "Transfer completed.")) as ->.
      { unfold r, Bank.transfer. by rewrite Hf, Ht, Hlt. }
      apply findAccount_Some in Hf as (Hi & Hidi & _).
      apply findAccount_Some in Ht as (Hj & Hidj & _).
      assert (i ≠ j) as Hij by (intros ->; congruence).
      simpl. split; [done|]. split; [|split; [|split; [|split]]].
      * rewrite list_lookup_alter_ne by done.
        by rewrite list_lookup_alter_eq, Hi.
      * rewrite list_lookup_alter_eq, list_lookup_alter_ne by done.
        by rewrite Hj.
      * intros k Hki Hkj. by rewrite !list_lookup_alter_ne.
      * by rewrite !length_alter.
      * done.
  - apply transfer_failed.
Qed.

Lemma transfer_moves_amount_witness :
  Bank.accounts (fst (Bank.transfer "2026-01-01 10:02:00" "2026-01-01 10:02:01"
                        1 2 1 small_and_large)) !! 0%nat
  = Some (Account.mk 1 "Alice" (2 - 1)
            [Transaction.mk "2026-01-01 10:00:00" "DEPOSIT" 2;
             Transaction.mk "2026-01-01 10:02:00" "TRANSFER_OUT" 1])
  ∧ Bank.transfer "2026-01-01 10:02:00" "2026-01-01 10:02:01" 1 2 100
      small_and_large
    = (small_and_large, "Insufficient funds.")
  ∧ Bank.transfer "2026-01-01 10:02:00" "2026-01-01 10:02:01" 1 2 5 one_account
    = (one_account, "Invalid account ID.").
Proof.
  split; [|split].
  - refine (proj1 (proj2 (proj2
      (proj1 (proj2
         (transfer_moves_amount "2026-01-01 10:02:00" "2026-01-01 10:02:01" 1 2 1
            small_and_large))
         0%nat
         (Account.mk 1 "Alice" 2
            [Transaction.mk "2026-01-01 10:00:00" "DEPOSIT" 2])
         1%nat
         (Account.mk 2 "Bob" 0x1p+53
            [Transaction.mk "2026-01-01 10:01:00" "DEPOSIT" 0x1p+53])
         _ _) _ _))).
    + split; [reflexivity|]. split; [reflexivity|]. intros j y _ Hj. lia.
    + split; [reflexivity|]. split; [reflexivity|].
      intros [|[|j]] y Hy Hj; simpl in Hy; [|lia|lia].
      injection Hy as <-. simpl. lia.
    + reflexivity.
    + lia.
  - refine (proj1
      (proj1 (proj2
         (transfer_moves_amount "2026-01-01 10:02:00" "2026-01-01 10:02:01" 1 2 100
            small_and_large))
         0%nat
         (Account.mk 1 "Alice" 2
            [Transaction.mk "2026-01-01 10:00:00" "DEPOSIT" 2])
         1%nat
         (Account.mk 2 "Bob" 0x1p+53
            [Transaction.mk "2026-01-01 10:01:00" "DEPOSIT" 0x1p+53])
         _ _) _).
    + split; [reflexivity|]. split; [reflexivity|]. intros j y _ Hj. lia.
    + split; [reflexivity|]. split; [reflexivity|].
      intros [|[|j]] y Hy Hj; simpl in Hy; [|lia|lia].
      injection Hy as <-. simpl. lia.
    + reflexivity.
  - refine (proj1
      (transfer_moves_amount "2026-01-01 10:02:00" "2026-01-01 10:02:01" 1 2 5
         one_account) _).
    right. repeat constructor. simpl. lia.
Defined.

(** C3 fails in two ways.  A transfer from an account to itself
    completes, and the source balance is 10 before and after (the two legs
    are applied to the same account).  Between different accounts the two
    balances move by the amount only up to rounding: with 2 and 2^53, a
    transfer of 1 leaves 1 and 2^53, and the sum of all balances goes from
    2^53 + 2 to 2^53. *)
Lemma transfer_to_self_and_rounding :
  (let r := Bank.transfer "2026-01-01 10:02:00" "2026-01-01 10:02:01" 1 1 5
              one_account in
   snd r = "Transfer completed."
   ∧ Account.balance <$> Bank.accounts one_account !! 0%nat = Some 10%float
   ∧ Account.balance <$> Bank.accounts (fst r) !! 0%nat = Some 10%float
   ∧ fst r ≠ one_account)
  ∧ (let r := Bank.transfer "2026-01-01 10:02:00" "2026-01-01 10:02:01" 1 2 1
                small_and_large in
     snd r = "Transfer completed."
     ∧ Account.balance <$> Bank.accounts (fst r) = [1; 0x1p+53]%float
     ∧ total small_and_large = 0x1.0000000000001p+53%float
     ∧ total (fst r) = 0x1p+53%float
     ∧ total (fst r) ≠ total small_and_large).
Proof.
  split.
  - repeat split; try reflexivity. intros E.
    apply (f_equal (λ b, length <$> (Account.history <$> Bank.accounts b))) in E.
    vm_compute in E. discriminate E.
  - repeat split; try reflexivity. vm_compute. float_neq.
Qed.

(** ** C4: withdraw and the balance *)

Lemma withdraw_covered now a acc :
  (Account.balance acc <? a)%float = false →
  Account.withdraw now a acc = (true, withdrawn now a acc).
Proof. unfold Account.withdraw. by intros ->. Qed.

Lemma withdraw_refused now a acc :
  (Account.balance acc <? a)%float = true →
  Account.withdraw now a acc = (false, acc).
Proof. unfold Account.withdraw. by intros ->. Qed.

Lemma Bank_withdraw_found now id a b i acc :
  Bank.findAccount id b = Some (i, acc) →
  Bank.withdraw now id a b =
    if (Account.balance acc <? a)%float then (b, "Insufficient funds.")
    else (Bank.set_accounts (<[i := withdrawn now a acc]> (Bank.accounts b)) b,
          "Withdrawal successful.").
Proof.
  unfold Bank.withdraw, Account.withdraw. intros ->.
  by destruct (_ <? _)%float.
Qed.

(** C4, as the code has it.  For every account whose balance is a number
    (not NaN) and every amount [a > 0]: [withdraw(a)] succeeds exactly when
    [a <= balance]; it then takes [a] off the balance and appends a
    WITHDRAW entry; when [a > balance] it returns false and leaves the
    account as it was.  [Bank::withdraw] reports the two outcomes as
    "Withdrawal successful." and "Insufficient funds.". *)
Theorem withdraw_exactly_when_covered
    (now : string) (a : float) (acc : Account.t) :
  is_number (Account.balance acc) →
  (0 <? a)%float = true →
  (fst (Account.withdraw now a acc) = true
   ↔ (a <=? Account.balance acc)%float = true)
  ∧ ((a <=? Account.balance acc)%float = true →
     Account.withdraw now a acc = (true, withdrawn now a acc))
  ∧ ((Account.balance acc <? a)%float = true →
     Account.withdraw now a acc = (false, acc))
  ∧ (∀ b id i, Bank.findAccount id b = Some (i, acc) →
       Bank.withdraw now id a b =
         if (a <=? Account.balance acc)%float
         then (Bank.set_accounts (<[i := withdrawn now a acc]> (Bank.accounts b)) b,
               "Withdrawal successful.")
         else (b, "Insufficient funds.")).
Proof.
  intros Hb Ha. apply ltb_is_number_r in Ha as Hna.
  pose proof (ltb_false_leb (Account.balance acc) a Hb Hna) as Hiff.
  repeat split.
  - intros Hw. apply Hiff. unfold Account.withdraw in Hw.
    by destruct (Account.balance acc <? a)%float.
  - intros Hle. apply Hiff in Hle. by rewrite withdraw_covered.
  - intros Hle. apply withdraw_covered. by apply Hiff.
  - apply withdraw_refused.
  - intros b id i Hf. rewrite (Bank_withdraw_found _ _ _ _ _ _ Hf).
    destruct (Account.balance acc <? a)%float.
    + destruct (a <=? Account.balance acc)%float; [|done].
      by destruct Hiff as [_ Hiff]; specialize (Hiff eq_refl).
    + by destruct Hiff as [-> _].
Qed.

Lemma withdraw_exactly_when_covered_witness :
  fst (Account.withdraw "2026-01-01 10:05:00" 10
         (Account.mk 1 "Alice" 10 [Transaction.mk "2026-01-01 10:00:00" "DEPOSIT" 10]))
  = true
  ↔ (10 <=? 10)%float = true.
Proof.
  refine (proj1 (withdraw_exactly_when_covered "2026-01-01 10:05:00" 10
    (Account.mk 1 "Alice" 10 [Transaction.mk "2026-01-01 10:00:00" "DEPOSIT" 10])
    _ _)); reflexivity.
Defined.

(** C4 fails for a balance that is NaN, which [load] accepts from the
    file: no amount is greater than NaN, so [withdraw(1)] succeeds although
    [1 <= balance] does not hold. *)
Lemma withdraw_from_nan_balance :
  Bank.start (H := glibc) (Some nan_file) = Some (Bank.mk [nan_account] 2)
  ∧ (0 <? 1)%float = true
  ∧ (1 <=? Account.balance nan_account)%float = false
  ∧ fst (Account.withdraw "2026-01-01 10:00:00" 1 nan_account) = true
  ∧ snd (Bank.withdraw "2026-01-01 10:00:00" 1 1 (Bank.mk [nan_account] 2))
    = "Withdrawal successful.".
Proof. repeat split; vm_compute; reflexivity. Qed.

(** ** C5: saving and loading again *)

Lemma append_cons (x : ascii) (a b : string) :
  (String x a ++ b)%string = String x (a ++ b).
Proof. reflexivity. Qed.

Lemma append_nil_l (b : string) : ("" ++ b)%string = b.
Proof. reflexivity. Qed.

Lemma append_assoc (a b c : string) : ((a ++ b) ++ c = a ++ (b ++ c))%string.
Proof. induction a as [|x a IH]; [done|]. by rewrite !append_cons, IH. Qed.

Lemma append_nil_r (a : string) : (a ++ "")%string = a.
Proof. induction a as [|x a IH]; [done|]. by rewrite append_cons, IH. Qed.

Lemma concat_cons (x : string) (xs : list string) :
  String.concat "" (x :: xs) = (x ++ String.concat "" xs)%string.
Proof. destruct xs; simpl; [by rewrite append_nil_r | done]. Qed.

Lemma concat_app (xs ys : list string) :
  String.concat "" (xs ++ ys)
  = (String.concat "" xs ++ String.concat "" ys)%string.
Proof.
  induction xs as [|x xs IH]; [done|].
  change ((x :: xs) ++ ys) with (x :: (xs ++ ys)).
  by rewrite !concat_cons, IH, append_assoc.
Qed.

Lemma file_of_cons l lines :
  file_of (l :: lines) = (l ++ String newline (file_of lines))%string.
Proof.
  unfold file_of. change (map ?f (l :: lines)) with (f l :: map f lines).
  cbv beta. by rewrite concat_cons, append_assoc.
Qed.

Lemma file_of_app ls1 ls2 :
  file_of (ls1 ++ ls2) = (file_of ls1 ++ file_of ls2)%string.
Proof. unfold file_of. by rewrite map_app, concat_app. Qed.

Lemma free_of_app c a b :
  free_of c (a ++ b)%string = free_of c a && free_of c b.
Proof.
  induction a as [|x a IH]; [done|]. rewrite append_cons. simpl.
  rewrite IH. by destruct (negb _).
Qed.

Lemma split_free d pre post :
  free_of d pre = true →
  Stream.split d (pre ++ String d post) = Some (pre, post).
Proof.
  induction pre as [|x pre IH]; rewrite ?append_nil_l, ?append_cons; simpl.
  - by rewrite Ascii.eqb_refl.
  - intros [Hx Hpre]%andb_prop. apply negb_true_iff in Hx.
    by rewrite Hx, IH.
Qed.

Lemma split_none d s : free_of d s = true → Stream.split d s = None.
Proof.
  induction s as [|x s IH]; simpl; [done|].
  intros [Hx Hs]%andb_prop. apply negb_true_iff in Hx. by rewrite Hx, IH.
Qed.

Lemma getlines_line l rest :
  free_of newline l = true →
  getlines (l ++ String newline rest) = l :: getlines rest.
Proof.
  induction l as [|x l IH]; rewrite ?append_nil_l, ?append_cons; simpl.
  - done.
  - intros [Hx Hl]%andb_prop. apply negb_true_iff in Hx.
    by rewrite Hx, IH.
Qed.

Lemma getlines_file_of lines :
  Forall (λ l, free_of newline l = true) lines →
  getlines (file_of lines) = lines.
Proof.
  induction 1 as [|l lines Hl _ IH]; [done|].
  by rewrite file_of_cons, getlines_line, IH.
Qed.

Section Roundtrip.
Context `{StdLib}.

Lemma serialize_block acc : Account.serialize acc = file_of (block_lines acc).
Proof.
  unfold Account.serialize, block_lines, header_of.
  rewrite file_of_cons, file_of_app, !append_assoc.
  do 5 f_equal. rewrite append_cons, append_nil_l. f_equal.
  unfold file_of at 1. rewrite map_map. f_equal.
Qed.

Lemma save_lines b :
  Bank.save b = file_of (flat_map block_lines (Bank.accounts b)).
Proof.
  unfold Bank.save. induction (Bank.accounts b) as [|acc accs IH]; [done|].
  simpl flat_map. change (map ?f (acc :: accs)) with (f acc :: map f accs).
  by rewrite concat_cons, IH, serialize_block, <- file_of_app.
Qed.

Lemma tline_clean tr : clean_tr tr → free_of newline (tline tr) = true.
Proof.
  intros (_ & H1 & _ & H2 & _ & H3). unfold tline, Transaction.serialize.
  by rewrite !free_of_app, H1, H2, H3.
Qed.

Lemma block_lines_clean acc :
  clean_acc acc → Forall (λ l, free_of newline l = true) (block_lines acc).
Proof.
  intros (_ & H1 & _ & H2 & _ & H3 & Hh). unfold block_lines. constructor.
  - unfold header_of. by rewrite !free_of_app, H1, H2, H3.
  - apply Forall_app. split; [|by repeat constructor].
    apply Forall_fmap. eapply Forall_impl; [exact Hh|]. apply tline_clean.
Qed.

Lemma deserialize_serialize_tr tr tr' :
  clean_tr tr → reread_tr tr tr' →
  Transaction.deserialize (Transaction.serialize tr) = Some tr'.
Proof.
  intros (H1 & _ & H2 & _ & H3 & _) (E1 & E2 & E3).
  unfold Transaction.deserialize, Transaction.serialize, Stream.getline.
  rewrite !append_cons, !append_nil_l.
  rewrite (split_free "|" _ _ H1), (split_free "|" _ _ H2), (split_none "|" _ H3), E3.
  destruct tr'. simpl in *. by subst.
Qed.

Lemma deserialize_header_of acc acc' :
  clean_acc acc → reread_acc acc acc' →
  Account.deserialize_header (header_of acc)
  = Some (Account.mk (Account.id acc') (Account.owner acc') (Account.balance acc') []).
Proof.
  intros (H1 & _ & H2 & _ & H3 & _) (E1 & E2 & E3 & _).
  unfold Account.deserialize_header, header_of, Stream.getline.
  rewrite !append_cons, !append_nil_l.
  rewrite (split_free ";" _ _ H1), E1, (split_free ";" _ _ H2), (split_none ";" _ H3), E3.
  by rewrite E2.
Qed.

Lemma deserialize_loop_tlines trs : ∀ trs' rest acc0,
  Forall clean_tr trs → Forall2 reread_tr trs trs' →
  Account.deserialize_loop (map tline trs ++ "END" :: rest) acc0
  = Some (Account.mk (Account.id acc0) (Account.owner acc0) (Account.balance acc0)
            (Account.history acc0 ++ trs'),
          rest).
Proof.
  induction trs as [|tr trs IH]; intros trs' rest acc0 Hc Hr.
  - apply Forall2_nil_inv_l in Hr as ->. simpl. rewrite app_nil_r. by destruct acc0.
  - apply Forall2_cons_inv_l in Hr as (tr' & trs'' & Htr & Hr & ->).
    apply Forall_cons in Hc as [Hctr Hc].
    change (map tline (tr :: trs) ++ "END" :: rest)
      with (tline tr :: (map tline trs ++ "END" :: rest)).
    unfold Account.deserialize_loop at 1. fold Account.deserialize_loop.
    assert (String.eqb (tline tr) "END" = false) as -> by reflexivity.
    assert (String.prefix "T:" (tline tr) = true) as ->
      by (unfold tline; by destruct (Transaction.serialize tr)).
    assert (substr 2 (tline tr) = Transaction.serialize tr) as -> by reflexivity.
    rewrite (deserialize_serialize_tr _ _ Hctr Htr).
    rewrite (IH trs'' rest _ Hc Hr). simpl. by rewrite <- app_assoc.
Qed.

Lemma header_of_nonempty acc : header_of acc ≠ "".
Proof. unfold header_of. by destruct (show_int (Account.id acc)). Qed.

Lemma deserialize_block acc acc' rest :
  clean_acc acc → reread_acc acc acc' →
  Account.deserialize (map tline (Account.history acc) ++ "END" :: rest)
                      (header_of acc)
  = Some (acc', rest).
Proof.
  intros Hc Hr. unfold Account.deserialize.
  rewrite (deserialize_header_of _ _ Hc Hr).
  destruct Hc as (_ & _ & _ & _ & _ & _ & Hh), Hr as (_ & _ & _ & Hr).
  rewrite (deserialize_loop_tlines _ _ _ _ Hh Hr). simpl. by destruct acc'.
Qed.

Lemma load_lines_blocks accs : ∀ accs' b,
  Forall clean_acc accs → Forall2 reread_acc accs accs' →
  Bank.load_lines (flat_map block_lines accs) b
  = Some (Bank.mk (Bank.accounts b ++ accs') (fold_left bump accs' (Bank.nextId b))).
Proof.
  induction accs as [|acc accs IH]; intros accs' b Hc Hr.
  - apply Forall2_nil_inv_l in Hr as ->. simpl. rewrite app_nil_r.
    rewrite load_lines_nil. by destruct b.
  - apply Forall2_cons_inv_l in Hr as (acc' & accs'' & Hacc & Hr & ->).
    apply Forall_cons in Hc as [Hcacc Hc].
    simpl flat_map. unfold block_lines at 1.
    change ((header_of acc :: ?l) ++ ?r) with (header_of acc :: (l ++ r)).
    rewrite (load_lines_block _ _ _ (header_of_nonempty acc)).
    rewrite <- app_assoc. simpl app at 2.
    rewrite (deserialize_block _ _ _ Hcacc Hacc).
    rewrite (IH accs'' _ Hc Hr). simpl. by rewrite <- app_assoc.
Qed.

End Roundtrip.

Section SaveLoad.
Context `{StdLib}.

Lemma lines_clean accs :
  Forall clean_acc accs →
  Forall (λ l, free_of newline l = true) (flat_map block_lines accs).
Proof.
  induction 1 as [|acc accs Hacc _ IH]; [constructor|].
  change (flat_map block_lines (acc :: accs))
    with (block_lines acc ++ flat_map block_lines accs).
  apply Forall_app. split; [by apply block_lines_clean | done].
Qed.

(** Where every number is parsed back as it was and [nextId] is what a
    load computes, the ledger comes back as it was saved. *)
Lemma load_of_save_exact (b : Bank.t) :
  Forall clean_acc (Bank.accounts b) →
  Forall2 reread_acc (Bank.accounts b) (Bank.accounts b) →
  Bank.nextId b = fold_left bump (Bank.accounts b) 1 →
  Bank.start (Some (Bank.save b)) = Some b.
Proof.
  intros Hc Hr Hn. unfold Bank.start, Bank.load.
  rewrite save_lines, (getlines_file_of _ (lines_clean _ Hc)).
  rewrite (load_lines_blocks _ _ Bank.init Hc Hr). simpl.
  rewrite <- Hn. by destruct b.
Qed.

(** C5, as the code has it.  For every ledger whose owners, timestamps
    and kinds hold no delimiter and no line end (nor do the rendered
    numbers), and whose ids, balances and amounts each parse back from
    their rendering: loading the file written by [save] gives the accounts
    in the same order, with the same owners and the same histories, each
    id, balance and amount being what is parsed back from its default
    rendering; [nextId] is computed anew from 1 and the ids read. *)
Theorem load_of_save (b : Bank.t) (accs' : list Account.t) :
  Forall clean_acc (Bank.accounts b) →
  Forall2 reread_acc (Bank.accounts b) accs' →
  Bank.start (Some (Bank.save b))
  = Some (Bank.mk accs' (fold_left bump accs' 1)).
Proof.
  intros Hc Hr. unfold Bank.start, Bank.load.
  rewrite save_lines, (getlines_file_of _ (lines_clean _ Hc)).
  by rewrite (load_lines_blocks _ _ Bank.init Hc Hr).
Qed.

End SaveLoad.

Lemma load_of_save_witness :
  Bank.start (H := glibc) (Some (Bank.save (H := glibc) (run scenario2 Bank.init)))
  = Some (run scenario2 Bank.init).
Proof.
  refine (load_of_save (H := glibc) (run scenario2 Bank.init)
            (Bank.accounts (run scenario2 Bank.init)) _ _).
  - repeat constructor.
  - repeat constructor.
Defined.

(** C5 fails: the default format keeps six significant digits.  A
    balance of 12345.67 is written as 12345.7 and read back as 12345.7;
    shown with two decimals, as the account summary does, the ledger
    before says 12345.67 and the ledger loaded says 12345.70. *)
Lemma save_drops_digits :
  ∃ b',
    Bank.start (H := glibc) (Some (Bank.save (H := glibc) one_deposit)) = Some b'
    ∧ Bank.save (H := glibc) one_deposit
      = file_of ["1;Alice;12345.7"; "T:2026-01-01 10:00:00|DEPOSIT|12345.7"; "END"]
    ∧ show_fixed (StdLib := glibc) 2 <$> (Account.balance <$> Bank.accounts one_deposit)
      = ["12345.67"]
    ∧ show_fixed (StdLib := glibc) 2 <$> (Account.balance <$> Bank.accounts b')
      = ["12345.70"]
    ∧ Bank.listAccounts (H := glibc) b' ≠ Bank.listAccounts (H := glibc) one_deposit.
Proof.
  eexists. split; [vm_compute; reflexivity|].
  split; [vm_compute; reflexivity|].
  split; [vm_compute; reflexivity|].
  split; [vm_compute; reflexivity|].
  vm_compute. discriminate.
Qed.

(** ** C6: what deposit checks *)

Lemma Bank_deposit_found now id a b i acc :
  Bank.findAccount id b = Some (i, acc) →
  Bank.deposit now id a b =
    (Bank.set_accounts (<[i := Account.deposit now a acc]> (Bank.accounts b)) b,
     "Deposit successful.").
Proof.
  unfold Bank.deposit. intros Hf. rewrite Hf.
  apply findAccount_Some in Hf as (Hi & _). by rewrite (alter_as_insert _ _ _ _ Hi).
Qed.

Lemma Bank_deposit_missing now id a b :
  Bank.findAccount id b = None →
  Bank.deposit now id a b = (b, "Account not found.").
Proof. unfold Bank.deposit. by intros ->. Qed.

(** C6, as the code has it, for every ledger, id and amount.
    [deposit(id, a)] checks nothing about [a].  When an account has the
    id, the first such account is handed to [Account::deposit] with [a]
    as it came, whatever its sign: its balance becomes [balance + a] and
    a DEPOSIT entry with [a] is appended, nothing else changes, and
    "Deposit successful." is printed.  When no account has the id,
    "Account not found." is printed and the ledger is left as it was. *)
Theorem deposit_takes_any_amount
    (now : string) (id : Z) (a : float) (b : Bank.t) :
  (∀ i acc,
     first_match id (Bank.accounts b) i acc →
     Bank.deposit now id a b
     = (Bank.mk (<[i := Account.deposit now a acc]> (Bank.accounts b))
                (Bank.nextId b),
        "Deposit successful.")
     ∧ Account.deposit now a acc
       = Account.mk (Account.id acc) (Account.owner acc)
           (Account.balance acc + a)%float
           (Account.history acc ++ [Transaction.mk now "DEPOSIT" a]))
  ∧ (absent id (Bank.accounts b) →
     Bank.deposit now id a b = (b, "Account not found.")).
Proof.
  split.
  - intros i acc Hf. apply findAccount_first in Hf. split; [|done].
    by rewrite (Bank_deposit_found _ _ _ _ _ _ Hf).
  - intros Hm. apply Bank_deposit_missing. by apply findAccount_absent.
Qed.

Lemma deposit_takes_any_amount_witness :
  Bank.deposit "2026-01-01 10:05:00" 1 (-5) one_account
  = (Bank.mk
       [Account.mk 1 "Alice" (10 + -5)
          [Transaction.mk "2026-01-01 10:00:00" "DEPOSIT" 10;
           Transaction.mk "2026-01-01 10:05:00" "DEPOSIT" (-5)]] 2,
     "Deposit successful.")
  ∧ Bank.deposit "2026-01-01 10:05:00" 1 (-5) Bank.init
    = (Bank.init, "Account not found.").
Proof.
  split.
  - refine (proj1
      (proj1 (deposit_takes_any_amount "2026-01-01 10:05:00" 1 (-5) one_account)
         0%nat
         (Account.mk 1 "Alice" 10
            [Transaction.mk "2026-01-01 10:00:00" "DEPOSIT" 10]) _)).
    split; [reflexivity|]. split; [reflexivity|]. intros j y _ Hj. lia.
  - refine (proj2
      (deposit_takes_any_amount "2026-01-01 10:05:00" 1 (-5) Bank.init) _).
    constructor.
Defined.

(** C6 fails: a deposit of -5 is not rejected; the account is changed. *)
Lemma negative_deposit_accepted :
  let r := Bank.deposit "2026-01-01 10:05:00" 1 (-5) one_account in
  (0 <? -5)%float = false
  ∧ snd r = "Deposit successful."
  ∧ Bank.accounts (fst r) =
      [Account.mk 1 "Alice" 5
         [Transaction.mk "2026-01-01 10:00:00" "DEPOSIT" 10;
          Transaction.mk "2026-01-01 10:05:00" "DEPOSIT" (-5)]]
  ∧ Account.balance <$> Bank.accounts one_account = [10%float].
Proof. repeat split; reflexivity. Qed.

(** ** C7: transfer from an account to itself *)

(** C7, as the code has it.  [transfer] checks neither [a > 0] nor
    [from ≠ to].  With [from = to] naming an account whose balance is not
    below [a] it completes: the account gets a TRANSFER_OUT entry and then
    a TRANSFER_IN entry, and the balance [(b - a) + a]. *)
Theorem transfer_to_self_completes
    (now1 now2 : string) (id : Z) (a : float) (b : Bank.t)
    (i : nat) (acc : Account.t) :
  Bank.findAccount id b = Some (i, acc) →
  (Account.balance acc <? a)%float = false →
  Bank.transfer now1 now2 id id a b =
    (Bank.set_accounts
       (<[i := Account.transferIn now2 a (Account.transferOut now1 a acc)]>
          (Bank.accounts b)) b,
     "Transfer completed.")
  ∧ Account.balance (Account.transferIn now2 a (Account.transferOut now1 a acc))
    = (Account.balance acc - a + a)%float
  ∧ Account.history (Account.transferIn now2 a (Account.transferOut now1 a acc))
    = Account.history acc
        ++ [Transaction.mk now1 "TRANSFER_OUT" a; Transaction.mk now2 "TRANSFER_IN" a].
Proof.
  intros Hf Hlt. repeat split.
  - unfold Bank.transfer. rewrite Hf, Hlt.
    apply findAccount_Some in Hf as (Hi & _).
    rewrite list_alter_alter_eq. by rewrite (alter_as_insert _ _ _ _ Hi).
  - simpl. by rewrite <- app_assoc.
Qed.

Lemma transfer_to_self_completes_witness :
  Bank.transfer "2026-01-01 10:02:00" "2026-01-01 10:02:01" 1 1 5 one_account =
    (Bank.set_accounts
       (<[0%nat := Account.transferIn "2026-01-01 10:02:01" 5
                     (Account.transferOut "2026-01-01 10:02:00" 5
                        (Account.mk 1 "Alice" 10
                           [Transaction.mk "2026-01-01 10:00:00" "DEPOSIT" 10]))]>
          (Bank.accounts one_account)) one_account,
     "Transfer completed.").
Proof.
  refine (proj1 (transfer_to_self_completes "2026-01-01 10:02:00"
                   "2026-01-01 10:02:01" 1 5 one_account 0 _ _ _)); reflexivity.
Defined.

(** C7 fails: a transfer from account 1 to account 1 is not rejected; it
    completes and the account has two more history entries. *)
Lemma self_transfer_accepted :
  let r := Bank.transfer "2026-01-01 10:02:00" "2026-01-01 10:02:01" 1 1 5
             one_account in
  snd r = "Transfer completed."
  ∧ Bank.accounts (fst r) =
      [Account.mk 1 "Alice" 10
         [Transaction.mk "2026-01-01 10:00:00" "DEPOSIT" 10;
          Transaction.mk "2026-01-01 10:02:00" "TRANSFER_OUT" 5;
          Transaction.mk "2026-01-01 10:02:01" "TRANSFER_IN" 5]]
  ∧ Bank.accounts one_account =
      [Account.mk 1 "Alice" 10
         [Transaction.mk "2026-01-01 10:00:00" "DEPOSIT" 10]].
Proof. repeat split; reflexivity. Qed.

(** ** C8: [nextId] and the ids *)

Lemma wrap_int_small z : INT_MIN ≤ z ≤ INT_MAX → wrap_int z = z.
Proof.
  unfold wrap_int, INT_MIN, INT_MAX. intros Hz.
  rewrite Z.mod_small by lia. lia.
Qed.

Lemma creations_nonneg ops : 0 ≤ creations ops.
Proof. induction ops as [|[] ops IH]; simpl; lia. Qed.

Lemma creations_app ops1 ops2 :
  creations (ops1 ++ ops2) = creations ops1 + creations ops2.
Proof. induction ops1 as [|[] ops1 IH]; simpl; lia. Qed.

Lemma fmap_id_alter (f : Account.t → Account.t) (i : nat) (accs : list Account.t) :
  (∀ acc, Account.id (f acc) = Account.id acc) →
  Account.id <$> alter f i accs = Account.id <$> accs.
Proof.
  intros Hf. revert i.
  induction accs as [|acc accs IH]; intros [|i]; csimpl; f_equal; auto.
Qed.

(** Deposit, withdraw and transfer keep the ids and [nextId]. *)
Lemma step_keeps_ids o b :
  creations [o] = 0 →
  Account.id <$> Bank.accounts (fst (step o b)) = Account.id <$> Bank.accounts b
  ∧ Bank.nextId (fst (step o b)) = Bank.nextId b.
Proof.
  destruct o as [name|now id a|now id a|now1 now2 from to a]; simpl; [lia|..];
    intros _.
  - unfold Bank.deposit. destruct (Bank.findAccount id b) as [[i acc]|]; [|done].
    simpl. split; [|done]. by apply fmap_id_alter.
  - unfold Bank.withdraw.
    destruct (Bank.findAccount id b) as [[i acc]|] eqn:Hf; [|done].
    apply findAccount_Some in Hf as (Hi & _).
    unfold Account.withdraw. destruct (_ <? _)%float; [done|]. simpl.
    split; [|done]. rewrite list_fmap_insert. simpl.
    apply list_insert_id. by rewrite list_lookup_fmap, Hi.
  - unfold Bank.transfer.
    destruct (Bank.findAccount from b) as [[i accFrom]|]; [|done].
    destruct (Bank.findAccount to b) as [[j accTo]|]; [|done].
    destruct (_ <? _)%float; [done|]. simpl. split; [|done].
    by rewrite !fmap_id_alter.
Qed.

Lemma run_ids ops : ∀ b,
  INT_MIN ≤ Bank.nextId b →
  Bank.nextId b + creations ops ≤ INT_MAX →
  Account.id <$> Bank.accounts (run ops b)
  = (Account.id <$> Bank.accounts b) ++ seqZ (Bank.nextId b) (creations ops)
  ∧ Bank.nextId (run ops b) = Bank.nextId b + creations ops.
Proof.
  induction ops as [|o ops IH]; intros b Hlo Hhi.
  - simpl. rewrite app_nil_r. split; [done|lia].
  - rewrite run_cons. pose proof (creations_nonneg ops) as Hc.
    destruct (decide (creations [o] = 0)) as [Ho|Ho].
    + destruct (step_keeps_ids o b Ho) as [Hids Hn].
      assert (creations (o :: ops) = creations ops) as Hco
        by (change (o :: ops) with ([o] ++ ops); rewrite creations_app; lia).
      rewrite Hco in *.
      destruct (IH (fst (step o b))) as [IH1 IH2]; [lia|lia|].
      by rewrite IH1, IH2, Hids, Hn.
    + destruct o as [name| | |]; try done.
      change (creations (Create name :: ops)) with (1 + creations ops) in *.
      assert (wrap_int (Bank.nextId b + 1) = Bank.nextId b + 1) as Ew
        by (apply wrap_int_small; unfold INT_MIN, INT_MAX in *; lia).
      unfold step, Bank.createAccount. simpl fst. rewrite Ew.
      destruct (IH (Bank.mk (Bank.accounts b ++ [Account.new (Bank.nextId b) name])
                            (Bank.nextId b + 1))) as [IH1 IH2];
        [simpl; lia | simpl; lia |].
      rewrite IH1, IH2. simpl Bank.nextId. simpl Bank.accounts.
      split; [|lia]. rewrite fmap_app, <- app_assoc. simpl. f_equal.
      rewrite (seqZ_cons (Bank.nextId b)) by lia. f_equal. f_equal; lia.
Qed.

Lemma run_ids_below_next ops b :
  ids_below_next b → INT_MIN ≤ Bank.nextId b →
  Bank.nextId b + creations ops ≤ INT_MAX →
  ids_below_next (run ops b).
Proof.
  unfold ids_below_next. intros Hb Hlo Hhi.
  destruct (run_ids ops b Hlo Hhi) as [Hids Hn].
  pose proof (creations_nonneg ops) as Hc.
  apply (Forall_fmap Account.id (λ i, i < Bank.nextId (run ops b))).
  rewrite Hids, Hn. apply Forall_app. split.
  - apply Forall_fmap. eapply Forall_impl; [exact Hb|]. simpl. lia.
  - apply Forall_seqZ. lia.
Qed.

(** What the loop of [load] leaves in [nextId] when no id is [INT_MAX]. *)
Lemma fold_bump accs : ∀ n,
  Forall id_in_range accs →
  fold_left bump accs n = fold_left (λ n acc, Z.max n (Account.id acc + 1)) accs n
  ∧ n ≤ fold_left bump accs n
  ∧ Forall (λ acc, Account.id acc < fold_left bump accs n) accs.
Proof.
  unfold id_in_range.
  induction accs as [|acc accs IH]; intros n Hr; simpl; [repeat split; [lia|done]|].
  apply Forall_cons in Hr as [Hacc Hr].
  destruct (IH (bump n acc) Hr) as (E & Hle & Hall).
  assert (bump n acc = Z.max n (Account.id acc + 1)) as Eb.
  { unfold bump. rewrite wrap_int_small; [done|]. unfold INT_MIN, INT_MAX in *. lia. }
  rewrite <- Eb. repeat split; [done|lia|].
  constructor; [lia|done].
Qed.

(** C8, as the code has it.  Over the lifetime of a process (the load at
    start-up, then any operations), provided no id read from the file is
    [INT_MAX] and [nextId] is not incremented beyond [INT_MAX]: after the
    load and after every operation [nextId] is strictly greater than every
    existing account id, and it never decreases; load leaves
    [max(nextId, id + 1)] over the accounts read, and every create takes
    the current [nextId] as id and increments it, so the ids created in a
    run are consecutive and increasing. *)
Theorem next_id_above_ids `{StdLib}
    (file : option string) (b0 : Bank.t) (ops : list op) :
  Bank.start file = Some b0 →
  Forall id_in_range (Bank.accounts b0) →
  Bank.nextId b0 + creations ops ≤ INT_MAX →
  ids_below_next b0
  ∧ Bank.nextId b0
    = fold_left (λ n acc, Z.max n (Account.id acc + 1)) (Bank.accounts b0) 1
  ∧ (∀ ops1 ops2, ops = ops1 ++ ops2 →
       ids_below_next (run ops1 b0)
       ∧ Bank.nextId b0 ≤ Bank.nextId (run ops1 b0) ≤ Bank.nextId (run ops b0)
       ∧ Bank.nextId (run ops1 b0) = Bank.nextId b0 + creations ops1
       ∧ Account.id <$> Bank.accounts (run ops1 b0)
         = (Account.id <$> Bank.accounts b0)
             ++ seqZ (Bank.nextId b0) (creations ops1)).
Proof.
  intros Hstart Hr Hhi.
  assert (∃ accs, Bank.accounts b0 = accs ∧ Bank.nextId b0 = fold_left bump accs 1)
    as (accs & Ha & Hn).
  { unfold Bank.start, Bank.load in Hstart. destruct file as [content|].
    - apply load_loop_appends in Hstart as (accs & Ha & Hn). by exists accs.
    - injection Hstart as <-. by exists []. }
  rewrite Ha in Hr. destruct (fold_bump accs 1 Hr) as (E & Hle & Hall).
  assert (ids_below_next b0) as H0 by (unfold ids_below_next; by rewrite Ha, Hn).
  split; [done|]. split; [by rewrite Ha, Hn|].
  intros ops1 ops2 ->. rewrite creations_app in Hhi.
  pose proof (creations_nonneg ops1). pose proof (creations_nonneg ops2).
  assert (INT_MIN ≤ Bank.nextId b0) by (unfold INT_MIN; lia).
  destruct (run_ids ops1 b0) as [Hids1 Hn1]; [done|lia|].
  destruct (run_ids (ops1 ++ ops2) b0) as [_ Hn2];
    [done|rewrite creations_app; lia|].
  rewrite creations_app in Hn2.
  split; [apply run_ids_below_next; [done|done|lia]|].
  split; [lia|done].
Qed.

Lemma next_id_above_ids_witness :
  ids_below_next (run [Create "Bob"] (Bank.mk [Account.mk 5 "Alice" 10 []] 6))
  ∧ Bank.nextId (run [Create "Bob"] (Bank.mk [Account.mk 5 "Alice" 10 []] 6)) = 7.
Proof.
  destruct (next_id_above_ids (H := glibc)
              (Some (file_of ["5;Alice;10"; "END"]))
              (Bank.mk [Account.mk 5 "Alice" 10 []] 6) [Create "Bob"])
    as (_ & _ & Hrun).
  - reflexivity.
  - repeat constructor; vm_compute; discriminate.
  - vm_compute. discriminate.
  - destruct (Hrun [Create "Bob"] []) as (Hids & _ & Hn & _).
    + reflexivity.
    + split; [exact Hids | exact Hn].
Defined.

(** C8 fails at the end of the range of [int]: for an account read with
    the id [INT_MAX], [id + 1] wraps around and [nextId] stays 1, below the
    id; and with [nextId = INT_MAX] after the load, a create takes that id
    and leaves [nextId] at [INT_MIN], lower than before. *)
Lemma next_id_wraps_around :
  (∃ b acc, Bank.start (H := glibc) (Some int_max_file) = Some b
            ∧ Bank.accounts b = [acc]
            ∧ Account.id acc = INT_MAX ∧ Bank.nextId b = 1)
  ∧ (∃ b, Bank.start (H := glibc) (Some int_max_pred_file) = Some b
          ∧ Bank.nextId b = INT_MAX
          ∧ Bank.nextId (run [Create "Bob"] b) = INT_MIN).
Proof.
  split.
  - eexists _, _. split; [vm_compute; reflexivity|]. by repeat split.
  - eexists. split; [vm_compute; reflexivity|]. by repeat split.
Qed.

(** ** C9: withdraw with a negative amount *)

(** C9, as the code has it.  For every account with a balance [b] at or
    above zero and every negative amount [a], [withdraw(a)] returns true,
    sets the balance to the double [b - a], which is not below [b], and
    appends a WITHDRAW entry with the negative amount. *)
Theorem withdraw_negative_amount (now : string) (a : float) (acc : Account.t) :
  nonneg (Account.balance acc) →
  (a <? 0)%float = true →
  Account.withdraw now a acc = (true, withdrawn now a acc)
  ∧ Account.balance (withdrawn now a acc) = (Account.balance acc - a)%float
  ∧ (Account.balance acc <=? Account.balance (withdrawn now a acc))%float = true
  ∧ Account.history (withdrawn now a acc)
    = Account.history acc ++ [Transaction.mk now "WITHDRAW" a].
Proof.
  intros Hb Ha. split; [|split; [done|split; [|done]]].
  - apply withdraw_covered. by apply nonneg_not_below_negative.
  - by apply sub_negative_ge.
Qed.

Lemma withdraw_negative_amount_witness :
  Account.withdraw "2026-01-01 10:05:00" (-5)
    (Account.mk 1 "Alice" 10 [Transaction.mk "2026-01-01 10:00:00" "DEPOSIT" 10])
  = (true,
     Account.mk 1 "Alice" 15
       [Transaction.mk "2026-01-01 10:00:00" "DEPOSIT" 10;
        Transaction.mk "2026-01-01 10:05:00" "WITHDRAW" (-5)]).
Proof.
  refine (proj1 (withdraw_negative_amount "2026-01-01 10:05:00" (-5)
    (Account.mk 1 "Alice" 10 [Transaction.mk "2026-01-01 10:00:00" "DEPOSIT" 10])
    _ _)); reflexivity.
Defined.

(** C9 fails where the amount is too small for the balance to move: with
    the balance 2^53 and the amount -1, [b - a] rounds to 2^53 again, so
    the balance does not increase. *)
Lemma withdraw_negative_absorbed :
  let acc := Account.mk 1 "Alice" 0x1p+53
               [Transaction.mk "2026-01-01 10:00:00" "DEPOSIT" 0x1p+53] in
  let r := Account.withdraw "2026-01-01 10:05:00" (-1) acc in
  (0 <=? Account.balance acc)%float = true
  ∧ (-1 <? 0)%float = true
  ∧ fst r = true
  ∧ Account.balance (snd r) = Account.balance acc
  ∧ (Account.balance acc <? Account.balance (snd r))%float = false.
Proof. repeat split; reflexivity. Qed.

(** ** One account through a run *)

Section Evolution.
Variable R : Account.t → Account.t → Prop.
Hypothesis R_refl : ∀ x, R x x.
Hypothesis R_trans : ∀ x y z, R x y → R y z → R x z.
Hypothesis R_add : ∀ tr x a,
  R x (Account.push_back tr x (Account.balance x + a)%float).
Hypothesis R_sub : ∀ tr x a,
  R x (Account.push_back tr x (Account.balance x - a)%float).

Lemma alter_evolves (f : Account.t → Account.t) (k : nat) (accs : list Account.t)
      (i : nat) acc :
  (∀ x, R x (f x)) → accs !! i = Some acc →
  ∃ acc', alter f k accs !! i = Some acc' ∧ R acc acc'.
Proof.
  intros Hf Hi. destruct (decide (k = i)) as [->|Hne].
  - exists (f acc). by rewrite list_lookup_alter_eq, Hi.
  - exists acc. rewrite list_lookup_alter_ne by done. auto.
Qed.

Lemma step_evolves o b (i : nat) acc :
  Bank.accounts b !! i = Some acc →
  ∃ acc', Bank.accounts (fst (step o b)) !! i = Some acc' ∧ R acc acc'.
Proof.
  intros Hi. destruct o as [name|now id a|now id a|now1 now2 from to a]; simpl.
  - exists acc. split; [|done]. by apply lookup_app_l_Some.
  - unfold Bank.deposit. destruct (Bank.findAccount id b) as [[k x]|]; simpl; [|eauto].
    apply alter_evolves; [|done]. intros; apply R_add.
  - unfold Bank.withdraw.
    destruct (Bank.findAccount id b) as [[k x]|] eqn:Hf; simpl; [|eauto].
    apply findAccount_Some in Hf as (Hk & _ & _).
    unfold Account.withdraw. destruct (_ <? _)%float; simpl; [eauto|].
    rewrite <- (alter_as_insert
                  (λ y, Account.push_back _ y (Account.balance y - a)%float) _ k x Hk).
    apply alter_evolves; [|done]. intros; apply R_sub.
  - unfold Bank.transfer.
    destruct (Bank.findAccount from b) as [[k x]|]; simpl; [|eauto].
    destruct (Bank.findAccount to b) as [[j y]|]; simpl; [|eauto].
    destruct (_ <? _)%float; simpl; [eauto|].
    destruct (alter_evolves (Account.transferOut now1 a) k (Bank.accounts b) i acc
                (λ x, R_sub _ x _) Hi) as (acc1 & H1 & L1).
    destruct (alter_evolves (Account.transferIn now2 a) j _ i acc1
                (λ x, R_add _ x _) H1) as (acc2 & H2 & L2).
    exists acc2. split; [done|]. by eapply R_trans.
Qed.

Lemma run_evolves ops : ∀ b (i : nat) acc,
  Bank.accounts b !! i = Some acc →
  ∃ acc', Bank.accounts (run ops b) !! i = Some acc' ∧ R acc acc'.
Proof.
  induction ops as [|o ops IH]; intros b i acc Hi.
  - exists acc. auto.
  - rewrite run_cons.
    destruct (step_evolves o b i acc Hi) as (acc1 & H1 & L1).
    destruct (IH _ i acc1 H1) as (acc2 & H2 & L2).
    exists acc2. split; [done|]. by eapply R_trans.
Qed.

End Evolution.









(** ** C10: two blocks with the same id *)

Section Duplicates.
Context `{StdLib}.




End Duplicates.


(** ** What a menu action reports and what it leaves behind *)

Lemma entries_app accs1 accs2 n :
  entries (Bank.mk (accs1 ++ accs2) n)
  = (entries (Bank.mk accs1 n) + entries (Bank.mk accs2 n))%nat.
Proof. unfold entries. simpl. by rewrite sum_list_with_app. Qed.

Lemma entries_alter (f : Account.t → Account.t) k (accs : list Account.t) :
  ∀ (i : nat) acc n,
  accs !! i = Some acc →
  length (Account.history (f acc)) = (length (Account.history acc) + k)%nat →
  entries (Bank.mk (alter f i accs) n) = (entries (Bank.mk accs n) + k)%nat.
Proof.
  unfold entries. simpl.
  induction accs as [|x accs IH]; intros [|i] acc n Hi Hk; simplify_eq/=.
  - lia.
  - rewrite (IH i acc n Hi Hk). lia.
Qed.

Lemma push_back_length tr acc bal :
  length (Account.history (Account.push_back tr acc bal))
  = (length (Account.history acc) + 1)%nat.
Proof. simpl. by rewrite length_app. Qed.

Ltac outcome := unfold accounts_added, entries_added; simpl; try lia.

Lemma step_counts o b :
  length (Bank.accounts (fst (step o b)))
  = (length (Bank.accounts b) + accounts_added (snd (step o b)))%nat
  ∧ entries (fst (step o b)) = (entries b + entries_added (snd (step o b)))%nat.
Proof.
  destruct b as [accs n].
  destruct o as [name|now id a|now id a|now1 now2 from to a]; simpl.
  - rewrite length_app, entries_app. unfold entries. outcome.
  - unfold Bank.deposit.
    destruct (Bank.findAccount id _) as [[i acc]|] eqn:Hf; simpl; [|outcome].
    apply findAccount_Some in Hf as (Hi & _ & _). simpl in Hi.
    rewrite length_alter. split; [outcome|].
    apply (entries_alter _ 1 _ i acc); [done|]. apply push_back_length.
  - unfold Bank.withdraw.
    destruct (Bank.findAccount id _) as [[i acc]|] eqn:Hf; simpl; [|outcome].
    apply findAccount_Some in Hf as (Hi & _ & _). simpl in Hi.
    unfold Account.withdraw. destruct (_ <? _)%float; simpl; [outcome|].
    rewrite length_insert. split; [outcome|].
    rewrite <- (alter_as_insert
                  (λ acc, Account.push_back _ acc (Account.balance acc - a)%float)
                  accs i acc Hi).
    apply (entries_alter _ 1 _ i acc); [done|]. apply push_back_length.
  - unfold Bank.transfer.
    destruct (Bank.findAccount from _) as [[i accFrom]|] eqn:Hf; simpl; [|outcome].
    destruct (Bank.findAccount to _) as [[j accTo]|] eqn:Ht; simpl; [|outcome].
    destruct (_ <? _)%float; simpl; [outcome|].
    apply findAccount_Some in Hf as (Hi & _ & _). simpl in Hi.
    apply findAccount_Some in Ht as (Hj & _ & _). simpl in Hj.
    rewrite !length_alter. split; [outcome|].
    assert (∃ accTo', alter (Account.transferOut now1 a) i accs !! j = Some accTo')
      as [accTo' Hj'].
    { apply lookup_lt_is_Some. rewrite length_alter. by eapply lookup_lt_Some. }
    transitivity
      (entries (Bank.mk (alter (Account.transferOut now1 a) i accs) n) + 1)%nat.
    { apply (entries_alter _ 1 _ j accTo'); [done | apply push_back_length]. }
    rewrite (entries_alter _ 1 _ i accFrom n Hi (push_back_length _ _ _)). outcome.
Qed.

Ltac among := unfold refusals; rewrite !elem_of_cons; solve [auto 10].

Lemma step_messages o b :
  snd (step o b) ∈ refusals
  ∨ snd (step o b) ∈ ["Account created successfully."; "Deposit successful.";
                      "Withdrawal successful."; "Transfer completed."].
Proof.
  destruct o as [name|now id a|now id a|now1 now2 from to a]; simpl.
  - right. among.
  - unfold Bank.deposit. destruct (Bank.findAccount id b) as [[i acc]|]; simpl.
    + right. among.
    + left. among.
  - unfold Bank.withdraw. destruct (Bank.findAccount id b) as [[i acc]|]; simpl.
    + destruct (Account.withdraw now a acc) as [[|] acc']; simpl.
      * right. among.
      * left. among.
    + left. among.
  - unfold Bank.transfer.
    destruct (Bank.findAccount from b) as [[i accFrom]|],
             (Bank.findAccount to b) as [[j accTo]|]; simpl;
      try (left; among).
    destruct (_ <? _)%float; simpl; [left | right]; among.
Qed.

Lemma refused_unchanged o b : snd (step o b) ∈ refusals → fst (step o b) = b.
Proof.
  unfold refusals. rewrite !elem_of_cons, elem_of_nil.
  destruct o as [name|now id a|now id a|now1 now2 from to a]; simpl.
  - intros [|[|[|[]]]]; done.
  - unfold Bank.deposit. destruct (Bank.findAccount id b) as [[i acc]|]; simpl; [|done].
    intros [|[|[|[]]]]; done.
  - unfold Bank.withdraw. destruct (Bank.findAccount id b) as [[i acc]|]; simpl; [|done].
    destruct (Account.withdraw now a acc) as [[|] acc']; simpl; [|done].
    intros [|[|[|[]]]]; done.
  - unfold Bank.transfer.
    destruct (Bank.findAccount from b) as [[i accFrom]|],
             (Bank.findAccount to b) as [[j accTo]|]; simpl; try done.
    destruct (_ <? _)%float; simpl; [done|].
    intros [|[|[|[]]]]; done.
Qed.

(** X1.  The account [createAccount] adds is the one [findAccount]
    returns for the id it was given, at the end of the vector, provided
    no account held that id before; every other id is looked up as
    before the creation, whatever the ledger. *)
Theorem create_then_find name b :
  (Forall (λ acc, Account.id acc ≠ Bank.nextId b) (Bank.accounts b) →
   Bank.findAccount (Bank.nextId b) (fst (Bank.createAccount name b))
   = Some (length (Bank.accounts b), Account.new (Bank.nextId b) name))
  ∧ ∀ id, id ≠ Bank.nextId b →
      Bank.findAccount id (fst (Bank.createAccount name b)) = Bank.findAccount id b.
Proof.
  unfold Bank.findAccount. simpl. split.
  - intros Hnew. rewrite list_find_app_r by (by apply list_find_None).
    simpl. by rewrite decide_True.
  - intros id Hid.
    destruct (list_find _ (Bank.accounts b)) as [[i acc]|] eqn:Hf.
    + by apply list_find_app_l.
    + rewrite list_find_app_r by done. simpl. by rewrite decide_False.
Qed.

Lemma create_then_find_witness :
  Bank.findAccount 2 (fst (Bank.createAccount "Bob" one_account))
  = Some (1%nat, Account.new 2 "Bob").
Proof.
  apply (create_then_find "Bob" one_account). repeat constructor; done.
Defined.

(** X2.  A menu action leaves the ledger exactly as it was (accounts,
    balances, histories and [nextId]) if and only if it prints one of
    "Account not found.", "Insufficient funds." and "Invalid account ID.". *)
Theorem unchanged_iff_refused o b :
  fst (step o b) = b ↔ snd (step o b) ∈ refusals.
Proof.
  split; [|apply refused_unchanged].
  intros Heq. destruct (step_messages o b) as [|Hok]; [done|].
  destruct (step_counts o b) as [Hn He]. rewrite Heq in Hn, He.
  revert Hok. rewrite !elem_of_cons, elem_of_nil.
  intros [E|[E|[E|[E|[]]]]]; rewrite E in Hn, He;
    unfold accounts_added, entries_added in Hn, He; simpl in Hn, He; lia.
Qed.

(** X3.  What a run prints tells what it has added: one account for
    each "Account created successfully." and none otherwise; one history
    entry in the whole ledger for each "Deposit successful." and each
    "Withdrawal successful.", two for each "Transfer completed." (also
    from an account to itself), none for anything else. *)
Theorem outcome_counts ops : ∀ b,
  length (Bank.accounts (run ops b))
  = (length (Bank.accounts b) + sum_list_with accounts_added (transcript ops b))%nat
  ∧ entries (run ops b)
    = (entries b + sum_list_with entries_added (transcript ops b))%nat.
Proof.
  induction ops as [|o ops IH]; intros b.
  - simpl. lia.
  - rewrite run_cons. destruct (IH (fst (step o b))) as [-> ->].
    destruct (step_counts o b) as [-> ->]. simpl. lia.
Qed.

(** X4.  No menu action removes, moves or renames an account: an
    account of the ledger is found at the same position after any run,
    with the same id and the same owner, and its history then starts
    with the history it had (entries are only appended). *)
Theorem accounts_are_kept ops b (i : nat) acc :
  Bank.accounts b !! i = Some acc →
  ∃ acc', Bank.accounts (run ops b) !! i = Some acc' ∧ later acc acc'.
Proof.
  apply (run_evolves later).
  - by repeat split.
  - intros x y z (I1 & O1 & H1) (I2 & O2 & H2). repeat split; try congruence.
    by etrans.
  - intros tr x a. repeat split. simpl. by apply prefix_app_r.
  - intros tr x a. repeat split. simpl. by apply prefix_app_r.
Qed.

Lemma accounts_are_kept_witness :
  ∃ acc', Bank.accounts (run scenario2 one_account) !! 0%nat = Some acc'
          ∧ later (Account.mk 1 "Alice" 10
                     [Transaction.mk "2026-01-01 10:00:00" "DEPOSIT" 10]) acc'.
Proof. apply (accounts_are_kept scenario2 one_account 0). reflexivity. Defined.

Lemma known_kinds_push tr acc bal :
  Transaction.type tr ∈ kinds → known_kinds acc →
  known_kinds (Account.push_back tr acc bal).
Proof.
  intros Htr Hacc. unfold known_kinds. simpl. apply Forall_app. split; [done|].
  by constructor.
Qed.

Ltac kind := unfold kinds; rewrite !elem_of_cons; solve [auto 10].

Lemma known_kinds_step o b :
  Forall known_kinds (Bank.accounts b) →
  Forall known_kinds (Bank.accounts (fst (step o b))).
Proof.
  intros Hb. destruct o as [name|now id a|now id a|now1 now2 from to a]; simpl.
  - apply Forall_app. split; [done|]. repeat constructor.
  - unfold Bank.deposit. destruct (Bank.findAccount id b) as [[i acc]|]; [|done].
    simpl. apply Forall_alter; [done|]. intros. apply known_kinds_push; [kind|done].
  - unfold Bank.withdraw.
    destruct (Bank.findAccount id b) as [[i acc]|] eqn:Hf; [|done].
    apply findAccount_Some in Hf as (Hi & _ & _).
    unfold Account.withdraw. destruct (_ <? _)%float; [done|].
    simpl. apply Forall_insert; [done|]. apply known_kinds_push; [kind|].
    by eapply Forall_lookup_1 in Hb.
  - unfold Bank.transfer.
    destruct (Bank.findAccount from b) as [[i accFrom]|]; [|done].
    destruct (Bank.findAccount to b) as [[j accTo]|]; [|done].
    destruct (_ <? _)%float; [done|]. simpl.
    apply Forall_alter; [apply Forall_alter; [done|]|];
      intros; (apply known_kinds_push; [kind|done]).
Qed.

(** X5.  The menu actions write no other kind of entry than DEPOSIT,
    WITHDRAW, TRANSFER_OUT and TRANSFER_IN: a ledger whose entries all
    have one of these kinds keeps that property through any run. *)
Theorem kinds_are_known ops : ∀ b,
  Forall known_kinds (Bank.accounts b) →
  Forall known_kinds (Bank.accounts (run ops b)).
Proof.
  induction ops as [|o ops IH]; intros b Hb; [done|].
  rewrite run_cons. by apply IH, known_kinds_step.
Qed.

Lemma kinds_are_known_witness :
  Forall known_kinds (Bank.accounts (run scenario2 Bank.init)).
Proof. apply (kinds_are_known scenario2 Bank.init). constructor. Defined.

Lemma not_number_spec x : ¬ is_number x ↔ Prim2SF x = S754_nan.
Proof.
  rewrite is_number_spec. split.
  - intros Hn. destruct (Prim2SF x); try done; by destruct Hn.
  - by intros -> Hn.
Qed.

(** X6.  A balance that is NaN stays NaN: whatever is deposited,
    withdrawn or transferred afterwards, the account at that position
    still has a NaN balance. *)
Theorem nan_balance_stays ops b (i : nat) acc :
  Bank.accounts b !! i = Some acc →
  ¬ is_number (Account.balance acc) →
  ∃ acc', Bank.accounts (run ops b) !! i = Some acc'
          ∧ ¬ is_number (Account.balance acc').
Proof.
  intros Hi Hnan.
  assert (∃ acc', Bank.accounts (run ops b) !! i = Some acc'
                  ∧ (¬ is_number (Account.balance acc)
                     → ¬ is_number (Account.balance acc'))) as (acc' & Hi' & Hstay).
  { apply (run_evolves
             (λ x y, ¬ is_number (Account.balance x) → ¬ is_number (Account.balance y)));
      [auto | auto | | | done].
    - intros tr x a. simpl. rewrite !not_number_spec, add_spec. by intros ->.
    - intros tr x a. simpl. rewrite !not_number_spec, sub_spec. by intros ->. }
  exists acc'. auto.
Qed.

Lemma nan_balance_stays_witness :
  ∃ acc', Bank.accounts
            (run [Deposit "2026-01-01 10:00:00" 1 10;
                  Withdraw "2026-01-01 10:01:00" 1 1000]
                 (Bank.mk [nan_account] 2)) !! 0%nat = Some acc'
          ∧ ¬ is_number (Account.balance acc').
Proof.
  apply (nan_balance_stays _ (Bank.mk [nan_account] 2) 0 nan_account); [reflexivity|].
  unfold is_number. vm_compute. discriminate.
Defined.

(** ** A deposit and the withdrawal that follows *)

Lemma SFcompare_finite_refl s m e :
  SFcompare (S754_finite s m e) (S754_finite s m e) = Some Eq.
Proof.
  destruct s; simpl; by rewrite Z.compare_refl, ?Pos.compare_cont_refl.
Qed.

(** Adding a positive amount to a balance at or above zero gives at
    least the balance, and at least the amount. *)
Lemma add_ge_l b a :
  nonneg b → (0 <? a)%float = true → (b <=? b + a)%float = true.
Proof.
  unfold nonneg. rewrite leb_zero_spec, ltb_zero_spec. intros Hb Ha.
  rewrite FloatAxioms.leb_spec, add_spec.
  pose proof (Prim2SF_valid b) as Vb.
  destruct (Prim2SF b) as [sb|sb| |sb mb eb] eqn:Eb,
           (Prim2SF a) as [sa|sa| |sa ma ea] eqn:Ea; try done; subst; try done.
  unfold SF64add, SFadd, cond_Zopp, binary_normalize. cbv zeta.
  change (Zpos ?x + Zpos ?y) with (Zpos (x + y)). cbv iota.
  apply binary_round_ge; [done|lia|].
  rewrite <- shl_align_value by lia. lia.
Qed.

Lemma add_ge_r b a :
  nonneg b → (0 <? a)%float = true → (a <=? b + a)%float = true.
Proof.
  unfold nonneg. rewrite leb_zero_spec, ltb_zero_spec. intros Hb Ha.
  rewrite FloatAxioms.leb_spec, add_spec.
  pose proof (Prim2SF_valid a) as Va.
  destruct (Prim2SF b) as [sb|sb| |sb mb eb] eqn:Eb,
           (Prim2SF a) as [sa|sa| |sa ma ea] eqn:Ea; try done; subst; try done.
  - unfold SF64add, SFadd, SFleb. by rewrite SFcompare_finite_refl.
  - unfold SF64add, SFadd, cond_Zopp, binary_normalize. cbv zeta.
    change (Zpos ?x + Zpos ?y) with (Zpos (x + y)). cbv iota.
    apply binary_round_ge; [done|lia|].
    rewrite <- shl_align_value by lia. lia.
Qed.

(** X7.  On an account whose balance is not negative, a deposit of a
    positive amount does not lower the balance, whatever the rounding,
    and a withdrawal of the same amount right after it is not refused. *)
Theorem deposit_then_withdraw (now1 now2 : string) (a : float) (acc : Account.t) :
  nonneg (Account.balance acc) → (0 <? a)%float = true →
  (Account.balance acc <=? Account.balance (Account.deposit now1 a acc))%float = true
  ∧ fst (Account.withdraw now2 a (Account.deposit now1 a acc)) = true.
Proof.
  intros Hb Ha. split; [by apply add_ge_l|].
  unfold Account.withdraw. simpl.
  pose proof (add_ge_r _ _ Hb Ha) as Hge.
  assert ((Account.balance acc + a <? a)%float = false) as ->; [|done].
  apply ltb_false_leb; [|by eapply ltb_is_number_r|done].
  by eapply leb_is_number_r.
Qed.

Lemma deposit_then_withdraw_witness :
  (10 <=? Account.balance
            (Account.deposit "2026-01-01 10:00:00" 0x1.999999999999ap-4
               (Account.mk 1 "Alice" 10 [])))%float = true
  ∧ fst (Account.withdraw "2026-01-01 10:01:00" 0x1.999999999999ap-4
           (Account.deposit "2026-01-01 10:00:00" 0x1.999999999999ap-4
              (Account.mk 1 "Alice" 10 []))) = true.
Proof.
  apply (deposit_then_withdraw "2026-01-01 10:00:00" "2026-01-01 10:01:00"
           0x1.999999999999ap-4 (Account.mk 1 "Alice" 10 []));
    reflexivity.
Defined.

(** X8.  Withdrawing exactly the balance of an account whose balance
    is finite is never refused and leaves a balance of exactly zero,
    with one WITHDRAW entry of that amount appended. *)
Theorem withdraw_whole_balance (now : string) (acc : Account.t) :
  (neg_infinity <? Account.balance acc)%float = true →
  (Account.balance acc <? infinity)%float = true →
  Account.withdraw now (Account.balance acc) acc
  = (true, Account.mk (Account.id acc) (Account.owner acc) 0%float
             (Account.history acc
                ++ [Transaction.mk now "WITHDRAW" (Account.balance acc)])).
Proof.
  unfold Account.withdraw, Account.push_back.
  set (b := Account.balance acc). intros Hlo Hhi.
  rewrite FloatAxioms.ltb_spec in Hlo, Hhi. unfold SFltb in Hlo, Hhi.
  change (Prim2SF neg_infinity) with (S754_infinity true) in Hlo.
  change (Prim2SF infinity) with (S754_infinity false) in Hhi.
  assert ((b <? b)%float = false) as ->.
  { rewrite FloatAxioms.ltb_spec. unfold SFltb.
    destruct (Prim2SF b) as [[]|[]| |s m e]; try done.
    by rewrite SFcompare_finite_refl. }
  assert ((b - b)%float = 0%float) as ->; [|done].
  apply Prim2SF_inj. rewrite sub_spec, Prim2SF_zero.
  destruct (Prim2SF b) as [[]|[]| |s m e]; try done.
  unfold SF64sub, SFsub. cbv zeta.
  assert (fst (shl_align m e (Z.min e e)) = m) as ->.
  { unfold shl_align. rewrite Z.min_id, Z.sub_diag. done. }
  by rewrite Z.sub_diag.
Qed.

Lemma withdraw_whole_balance_witness :
  Account.withdraw "2026-01-01 10:00:00" 0x1.999999999999ap-4
    (Account.mk 1 "Alice" 0x1.999999999999ap-4 [])
  = (true, Account.mk 1 "Alice" 0
             [Transaction.mk "2026-01-01 10:00:00" "WITHDRAW" 0x1.999999999999ap-4]).
Proof.
  apply (withdraw_whole_balance "2026-01-01 10:00:00"
           (Account.mk 1 "Alice" 0x1.999999999999ap-4 [])); reflexivity.
Defined.

(** ** The fields of a record line and of a header line *)

Section Fields.
Context `{StdLib}.

Lemma deserialize_three_fields ts ty tok :
  free_of "|" ts = true → free_of "|" ty = true → free_of "|" tok = true →
  Transaction.deserialize (ts ++ "|" ++ ty ++ "|" ++ tok)
  = Transaction.mk ts ty <$> stod tok.
Proof.
  intros H1 H2 H3. unfold Transaction.deserialize, Stream.getline.
  rewrite !append_cons, !append_nil_l.
  rewrite (split_free "|" _ _ H1), (split_free "|" _ _ H2), (split_none "|" _ H3).
  by destruct (stod tok).
Qed.

Lemma deserialize_header_three idt owner balt :
  free_of ";" idt = true → free_of ";" owner = true → free_of ";" balt = true →
  Account.deserialize_header (idt ++ ";" ++ owner ++ ";" ++ balt)
  = header_account idt owner balt.
Proof.
  intros H1 H2 H3. unfold Account.deserialize_header, header_account, Stream.getline.
  rewrite !append_cons, !append_nil_l.
  rewrite (split_free ";" _ _ H1), (split_free ";" _ _ H2), (split_none ";" _ H3).
  by destruct (stoi idt).
Qed.

(** X9.  A record with fewer than three fields, or with an empty
    third field, has its amount converted from the empty string: the
    fields present become the timestamp and the kind, and the result is
    what [stod] makes of "" (with the C library, the exception that ends
    the program). *)
Theorem transaction_missing_fields ts ty :
  free_of "|" ts = true → free_of "|" ty = true →
  Transaction.deserialize ts = Transaction.mk ts "" <$> stod ""
  ∧ Transaction.deserialize (ts ++ "|" ++ ty) = Transaction.mk ts ty <$> stod ""
  ∧ Transaction.deserialize (ts ++ "|" ++ ty ++ "|") = Transaction.mk ts ty <$> stod "".
Proof.
  intros H1 H2. repeat split; unfold Transaction.deserialize, Stream.getline;
    rewrite ?append_cons, ?append_nil_l.
  - rewrite (split_none "|" _ H1). by destruct (stod "").
  - rewrite (split_free "|" _ _ H1), (split_none "|" _ H2). by destruct (stod "").
  - rewrite (split_free "|" _ _ H1), (split_free "|" _ _ H2). simpl.
    by destruct (stod "").
Qed.

(** X10.  [Transaction::deserialize] reads three fields and no more:
    whatever follows a third delimiter changes nothing. *)
Theorem transaction_extra_fields ts ty tok extra :
  free_of "|" ts = true → free_of "|" ty = true → free_of "|" tok = true →
  Transaction.deserialize (ts ++ "|" ++ ty ++ "|" ++ tok ++ "|" ++ extra)
  = Transaction.deserialize (ts ++ "|" ++ ty ++ "|" ++ tok).
Proof.
  intros H1 H2 H3. rewrite (deserialize_three_fields _ _ _ H1 H2 H3).
  unfold Transaction.deserialize, Stream.getline.
  rewrite !append_cons, !append_nil_l.
  rewrite (split_free "|" _ _ H1), (split_free "|" _ _ H2), (split_free "|" _ _ H3).
  by destruct (stod tok).
Qed.

(** X11.  A header with one field or two is not rejected for that:
    the third [getline] fails and leaves in [token] the text of the id,
    so the balance is converted from the id text; a missing owner is
    the empty string. *)
Theorem header_missing_fields idt owner :
  free_of ";" idt = true → free_of ";" owner = true →
  Account.deserialize_header idt = header_account idt "" idt
  ∧ Account.deserialize_header (idt ++ ";" ++ owner) = header_account idt owner idt.
Proof.
  intros H1 H2. split;
    unfold Account.deserialize_header, header_account, Stream.getline;
    rewrite ?append_cons, ?append_nil_l.
  - rewrite (split_none ";" _ H1). by destruct (stoi idt).
  - rewrite (split_free ";" _ _ H1), (split_none ";" _ H2). by destruct (stoi idt).
Qed.

(** X12.  The header is read as three fields and no more: whatever
    follows a third delimiter changes nothing. *)
Theorem header_extra_fields idt owner balt extra :
  free_of ";" idt = true → free_of ";" owner = true → free_of ";" balt = true →
  Account.deserialize_header (idt ++ ";" ++ owner ++ ";" ++ balt ++ ";" ++ extra)
  = Account.deserialize_header (idt ++ ";" ++ owner ++ ";" ++ balt).
Proof.
  intros H1 H2 H3. rewrite (deserialize_header_three _ _ _ H1 H2 H3).
  unfold Account.deserialize_header, header_account, Stream.getline.
  rewrite !append_cons, !append_nil_l.
  rewrite (split_free ";" _ _ H1), (split_free ";" _ _ H2), (split_free ";" _ _ H3).
  by destruct (stoi idt).
Qed.



End Fields.

Lemma transaction_missing_fields_witness :
  Transaction.deserialize (H := glibc) "2026-01-01 10:00:00" = None
  ∧ Transaction.deserialize (H := glibc) "2026-01-01 10:00:00|DEPOSIT" = None
  ∧ Transaction.deserialize (H := glibc) "2026-01-01 10:00:00|DEPOSIT|" = None.
Proof.
  apply (transaction_missing_fields (H := glibc) "2026-01-01 10:00:00" "DEPOSIT");
    reflexivity.
Defined.

Lemma transaction_extra_fields_witness :
  Transaction.deserialize (H := glibc) "2026-01-01 10:00:00|DEPOSIT|50|USD"
  = Transaction.deserialize (H := glibc) "2026-01-01 10:00:00|DEPOSIT|50".
Proof.
  apply (transaction_extra_fields (H := glibc)
           "2026-01-01 10:00:00" "DEPOSIT" "50" "USD");
    reflexivity.
Defined.

Lemma header_missing_fields_witness :
  Account.deserialize_header (H := glibc) "7" = Some (Account.mk 7 "" 7 [])
  ∧ Account.deserialize_header (H := glibc) "7;Alice"
    = Some (Account.mk 7 "Alice" 7 []).
Proof.
  apply (header_missing_fields (H := glibc) "7" "Alice"); reflexivity.
Defined.

Lemma header_extra_fields_witness :
  Account.deserialize_header (H := glibc) "7;Alice;10;20"
  = Account.deserialize_header (H := glibc) "7;Alice;10".
Proof.
  apply (header_extra_fields (H := glibc) "7" "Alice" "10" "20"); reflexivity.
Defined.


(** ** Files: blank lines, what a load adds, what ends it *)

Lemma getlines_file_of_app lines text :
  Forall (λ l, free_of newline l = true) lines →
  getlines (file_of lines ++ text) = lines ++ getlines text.
Proof.
  induction 1 as [|l lines Hl _ IH]; [done|].
  by rewrite file_of_cons, append_assoc, append_cons, getlines_line, IH.
Qed.

Lemma fold_bump_ge accs : ∀ n, n ≤ fold_left bump accs n.
Proof.
  induction accs as [|acc accs IH]; intros n; simpl; [lia|].
  etrans; [|apply IH]. unfold bump. lia.
Qed.

Section Files.
Context `{StdLib}.

(** An empty line inside a block is passed over like any line that is
    neither END nor a T record; after the block it is left to [load]. *)
Lemma deserialize_loop_blank l1 l2 : ∀ acc,
  (Account.deserialize_loop (l1 ++ "" :: l2) acc = None
   ∧ Account.deserialize_loop (l1 ++ l2) acc = None)
  ∨ ∃ acc' r1 r2,
      Account.deserialize_loop (l1 ++ "" :: l2) acc = Some (acc', r1)
      ∧ Account.deserialize_loop (l1 ++ l2) acc = Some (acc', r2)
      ∧ (r1 = r2
         ∨ ∃ p, r1 = p ++ "" :: l2 ∧ r2 = p ++ l2 ∧ (length p < length l1)%nat).
Proof.
  induction l1 as [|line l1 IH]; intros acc.
  - simpl. destruct (Account.deserialize_loop l2 acc) as [[acc' r]|]; [|by left].
    right. exists acc', r, r. auto.
  - simpl. destruct (String.eqb line "END").
    { right. exists acc, (l1 ++ "" :: l2), (l1 ++ l2). repeat split.
      right. exists l1. repeat split. lia. }
    assert (∀ acc0,
      (Account.deserialize_loop (l1 ++ "" :: l2) acc0 = None
       ∧ Account.deserialize_loop (l1 ++ l2) acc0 = None)
      ∨ ∃ acc' r1 r2,
          Account.deserialize_loop (l1 ++ "" :: l2) acc0 = Some (acc', r1)
          ∧ Account.deserialize_loop (l1 ++ l2) acc0 = Some (acc', r2)
          ∧ (r1 = r2
             ∨ ∃ p, r1 = p ++ "" :: l2 ∧ r2 = p ++ l2
                    ∧ (length p < S (length l1))%nat)) as IH'.
    { intros acc0.
      destruct (IH acc0) as [|(acc' & r1 & r2 & E1 & E2 & Hr)]; [by left|].
      right. exists acc', r1, r2. repeat split; try done.
      destruct Hr as [|(p & ? & ? & ?)]; [by left|].
      right. exists p. repeat split; try done. lia. }
    destruct (String.prefix "T:" line); [|apply IH'].
    destruct (Transaction.deserialize _); [apply IH' | by left].
Qed.

Lemma load_lines_skip_blank n : ∀ l1 l2 b,
  (length l1 ≤ n)%nat →
  Bank.load_lines (l1 ++ "" :: l2) b = Bank.load_lines (l1 ++ l2) b.
Proof.
  induction n as [|n IH]; intros [|line l1] l2 b Hn; simpl in Hn; try lia;
    try apply load_lines_blank.
  change ((line :: l1) ++ ?r) with (line :: (l1 ++ r)).
  destruct (String.eqb_spec line "") as [->|Hne].
  - rewrite !load_lines_blank. apply IH. lia.
  - rewrite !(load_lines_block _ _ _ Hne). unfold Account.deserialize.
    destruct (Account.deserialize_header line) as [acc|]; [|done].
    destruct (deserialize_loop_blank l1 l2 acc)
      as [[-> ->]|(acc' & r1 & r2 & -> & -> & Hr)]; [done|].
    destruct Hr as [->|(p & -> & -> & Hp)]; [done|]. apply IH. lia.
Qed.

(** Blocks as [save] writes them, followed by more lines. *)
Lemma load_lines_blocks_then accs rest : ∀ accs' b,
  Forall clean_acc accs → Forall2 reread_acc accs accs' →
  Bank.load_lines (flat_map block_lines accs ++ rest) b
  = Bank.load_lines rest
      (Bank.mk (Bank.accounts b ++ accs') (fold_left bump accs' (Bank.nextId b))).
Proof.
  induction accs as [|acc accs IH]; intros accs' b Hc Hr.
  - apply Forall2_nil_inv_l in Hr as ->. simpl. rewrite app_nil_r. by destruct b.
  - apply Forall2_cons_inv_l in Hr as (acc' & accs'' & Hacc & Hr & ->).
    apply Forall_cons in Hc as [Hcacc Hc].
    simpl flat_map. unfold block_lines at 1. rewrite <- !app_assoc.
    change ((header_of acc :: ?l) ++ ?r) with (header_of acc :: (l ++ r)).
    rewrite (load_lines_block _ _ _ (header_of_nonempty acc)).
    rewrite <- app_assoc. simpl app at 2.
    rewrite (deserialize_block _ _ _ Hcacc Hacc).
    rewrite (IH accs'' _ Hc Hr). simpl. by rewrite <- app_assoc.
Qed.

(** X14.  Empty lines in the data file are of no consequence, wherever
    they stand (before, between or inside blocks): a file loads the same
    with an empty line inserted at any place. *)
Theorem blank_lines_ignored l1 l2 b :
  Forall (λ l, free_of newline l = true) (l1 ++ l2) →
  Bank.load (Some (file_of (l1 ++ "" :: l2))) b
  = Bank.load (Some (file_of (l1 ++ l2))) b.
Proof.
  intros Hl. unfold Bank.load.
  rewrite !getlines_file_of; [by eapply load_lines_skip_blank|done|].
  apply Forall_app in Hl as [H1 H2]. apply Forall_app. split; [done|].
  by constructor.
Qed.

(** X15.  A load that comes to its end only adds: the accounts that
    were in the ledger stay in place and unchanged at the front of the
    vector, and [nextId] is not lowered; where the file cannot be opened
    the ledger is left as it was. *)
Theorem load_only_appends file b b' :
  Bank.load file b = Some b' →
  Bank.accounts b `prefix_of` Bank.accounts b'
  ∧ Bank.nextId b ≤ Bank.nextId b'
  ∧ (file = None → b' = b).
Proof.
  destruct file as [content|]; simpl.
  - intros Hl. apply load_loop_appends in Hl as (accs & -> & ->).
    split; [by apply prefix_app_r|]. split; [apply fold_bump_ge | done].
  - intros [= <-]. done.
Qed.

(** X16.  Loading goes block by block: for a file that starts with
    what [save] wrote for a ledger (whose texts hold no delimiter and
    whose numbers are parsed back), loading it is loading the rest of
    the file into the ledger extended by the accounts read back, with
    [nextId] moved by [max] over their ids. *)
Theorem load_after_saved_ledger b1 accs' text b :
  Forall clean_acc (Bank.accounts b1) →
  Forall2 reread_acc (Bank.accounts b1) accs' →
  Bank.load (Some (Bank.save b1 ++ text)%string) b
  = Bank.load (Some text)
      (Bank.mk (Bank.accounts b ++ accs') (fold_left bump accs' (Bank.nextId b))).
Proof.
  intros Hc Hr. unfold Bank.load.
  rewrite save_lines, (getlines_file_of_app _ _ (lines_clean _ Hc)).
  by apply load_lines_blocks_then.
Qed.

(** X17.  One header that does not convert ends the whole load: the
    exception leaves no ledger at all, however many well-formed blocks
    were read before the line. *)
Theorem bad_header_aborts_load b1 accs' bad text b :
  Forall clean_acc (Bank.accounts b1) →
  Forall2 reread_acc (Bank.accounts b1) accs' →
  bad ≠ "" → free_of newline bad = true →
  Account.deserialize_header bad = None →
  Bank.load (Some (Bank.save b1 ++ bad ++ String newline text)%string) b = None.
Proof.
  intros Hc Hr Hne Hnl Hbad. unfold Bank.load.
  rewrite save_lines, (getlines_file_of_app _ _ (lines_clean _ Hc)).
  rewrite (load_lines_blocks_then _ _ _ _ Hc Hr), (getlines_line _ _ Hnl).
  rewrite (load_lines_block _ _ _ Hne). unfold Account.deserialize.
  by rewrite Hbad.
Qed.

(** X18.  The file [save] writes is a sequence of terminated lines:
    for each account in the order of the vector its header
    id;owner;balance, one line T:timestamp|kind|amount per history entry
    in the order of the history, and the line END; none of these lines
    is empty. *)
Theorem save_layout b :
  Bank.save b = file_of (flat_map block_lines (Bank.accounts b))
  ∧ Forall (λ l, l ≠ "") (flat_map block_lines (Bank.accounts b)).
Proof.
  split; [apply save_lines|].
  induction (Bank.accounts b) as [|acc accs IH]; [constructor|].
  simpl flat_map. constructor; [apply header_of_nonempty|].
  rewrite <- app_assoc. apply Forall_app. split; [|by constructor].
  apply Forall_fmap, Forall_true. intros tr. unfold tline. done.
Qed.

End Files.

Lemma blank_lines_ignored_witness :
  Bank.load (H := glibc)
    (Some (file_of ["7;Alice;10"; ""; "END"; ""; "8;Bob;20"; "END"])) Bank.init
  = Bank.load (H := glibc)
      (Some (file_of ["7;Alice;10"; "END"; ""; "8;Bob;20"; "END"])) Bank.init.
Proof.
  apply (blank_lines_ignored (H := glibc)
           ["7;Alice;10"] ["END"; ""; "8;Bob;20"; "END"]).
  repeat constructor.
Defined.

Lemma load_only_appends_witness :
  Bank.accounts one_account
    `prefix_of` Bank.accounts
                  (Bank.mk (Bank.accounts one_account ++ [first_seven; second_seven]) 8)
  ∧ Bank.nextId one_account ≤ 8
  ∧ (Some two_sevens_file = None
     → Bank.mk (Bank.accounts one_account ++ [first_seven; second_seven]) 8
       = one_account).
Proof.
  apply (load_only_appends (H := glibc) (Some two_sevens_file) one_account).
  reflexivity.
Defined.

Lemma load_after_saved_ledger_witness :
  Bank.load (H := glibc)
    (Some (Bank.save (H := glibc) (run scenario2 Bank.init) ++ two_sevens_file)%string)
    Bank.init
  = Bank.load (H := glibc) (Some two_sevens_file) (run scenario2 Bank.init).
Proof.
  refine (load_after_saved_ledger (H := glibc) (run scenario2 Bank.init)
            (Bank.accounts (run scenario2 Bank.init)) two_sevens_file Bank.init _ _).
  - repeat constructor.
  - repeat constructor.
Defined.

Lemma bad_header_aborts_load_witness :
  Bank.load (H := glibc)
    (Some (Bank.save (H := glibc) (run scenario2 Bank.init)
           ++ "seven;Carol;5" ++ String newline (file_of ["END"]))%string)
    Bank.init
  = None.
Proof.
  refine (bad_header_aborts_load (H := glibc) (run scenario2 Bank.init)
            (Bank.accounts (run scenario2 Bank.init)) "seven;Carol;5" (file_of ["END"])
            Bank.init _ _ _ _ _); try reflexivity; try done.
  - repeat constructor.
  - repeat constructor.
Defined.

(** ** The timestamp *)

Example currentTime_value :
  currentTime (H := glibc) (mk_tm 5 4 3 2 0 126) = "2026-01-02 03:04:05".
Proof. reflexivity. Qed.

Lemma length_append (a b : string) :
  String.length (a ++ b) = (String.length a + String.length b)%nat.
Proof.
  induction a as [|x a IH]; [done|]. rewrite append_cons. simpl. by rewrite IH.
Qed.

Lemma forallb_seqZ (P : Z → bool) lo len n :
  forallb P (seqZ lo len) = true → lo ≤ n < lo + len → P n = true.
Proof.
  intros Hall Hn. rewrite forallb_forall in Hall. apply Hall.
  apply list_elem_of_In, elem_of_seqZ. lia.
Qed.

Lemma digits_spec w s :
  digits w s = true →
  String.length s = w ∧ free_of "|" s = true ∧ free_of newline s = true.
Proof.
  unfold digits. intros [Hw Hd]%andb_prop. apply Nat.eqb_eq in Hw.
  split; [done|]. clear Hw.
  induction s as [|c s IH]; [done|]. simpl in Hd.
  apply andb_prop in Hd as [Hc Hd]. destruct (IH Hd) as [I1 I2].
  simpl. rewrite I1, I2.
  assert (Ascii.eqb c "|" = false ∧ Ascii.eqb c newline = false) as [-> ->]; [|done].
  rewrite !orb_true_iff in Hc.
  repeat (destruct Hc as [Hc|Hc]; [apply Ascii.eqb_eq in Hc as ->; by split|]).
  done.
Qed.

Lemma field_digits w s n : field w s n = true → digits w s = true.
Proof. unfold field. by intros [? _]%andb_prop. Qed.

(** The decimal rendering of the numbers a clock delivers, one by one. *)
Lemma two_digits n :
  0 ≤ n < 100 → field 2 (setw_fill 2 "0" (Glibc.show_int n)) n = true.
Proof.
  apply (forallb_seqZ (λ n, field 2 (setw_fill 2 "0" (Glibc.show_int n)) n) 0 100).
  vm_compute. reflexivity.
Qed.

Lemma four_digits n :
  1000 ≤ n < 10000 → field 4 (Glibc.show_int n) n = true.
Proof.
  intros Hn.
  apply (forallb_seqZ (λ n, field 4 (Glibc.show_int n) n) 1000 9000); [|lia].
  vm_compute. reflexivity.
Qed.

(** X19.  For every calendar date and time of day in the years 1000
    to 9999, [currentTime] gives the text YYYY-MM-DD HH:MM:SS: the year
    [1900 + tm_year] in four digits, then the month [1 + tm_mon], the
    day, the hour, the minute and the second, each in two digits filled
    with a zero, with the separators - - space : : between them.  The
    text has exactly 19 characters and holds neither the field delimiter
    of a T line nor a line end. *)
Theorem currentTime_format (ltm : tm) :
  calendar ltm →
  ∃ y mo d h mi s,
    currentTime (H := glibc) ltm
    = (y ++ "-" ++ mo ++ "-" ++ d ++ " " ++ h ++ ":" ++ mi ++ ":" ++ s)%string
    ∧ field 4 y (1900 + tm_year ltm) = true
    ∧ field 2 mo (1 + tm_mon ltm) = true
    ∧ field 2 d (tm_mday ltm) = true
    ∧ field 2 h (tm_hour ltm) = true
    ∧ field 2 mi (tm_min ltm) = true
    ∧ field 2 s (tm_sec ltm) = true
    ∧ String.length (currentTime (H := glibc) ltm) = 19%nat
    ∧ free_of "|" (currentTime (H := glibc) ltm) = true
    ∧ free_of newline (currentTime (H := glibc) ltm) = true.
Proof.
  intros (Hy & Hmo & Hd & Hh & Hmi & Hs). unfold currentTime. simpl show_int.
  rewrite !wrap_int_small by (unfold INT_MIN, INT_MAX; lia).
  pose proof (four_digits (1900 + tm_year ltm) ltac:(lia)) as Fy.
  pose proof (two_digits (1 + tm_mon ltm) ltac:(lia)) as Fmo.
  pose proof (two_digits (tm_mday ltm) ltac:(lia)) as Fd.
  pose proof (two_digits (tm_hour ltm) ltac:(lia)) as Fh.
  pose proof (two_digits (tm_min ltm) ltac:(lia)) as Fmi.
  pose proof (two_digits (tm_sec ltm) ltac:(lia)) as Fs.
  eexists _, _, _, _, _, _. split; [reflexivity|].
  do 6 (split; [eassumption|]).
  destruct (digits_spec _ _ (field_digits _ _ _ Fy)) as (Y1 & Y2 & Y3).
  destruct (digits_spec _ _ (field_digits _ _ _ Fmo)) as (M1 & M2 & M3).
  destruct (digits_spec _ _ (field_digits _ _ _ Fd)) as (D1 & D2 & D3).
  destruct (digits_spec _ _ (field_digits _ _ _ Fh)) as (H1 & H2 & H3).
  destruct (digits_spec _ _ (field_digits _ _ _ Fmi)) as (I1 & I2 & I3).
  destruct (digits_spec _ _ (field_digits _ _ _ Fs)) as (S1 & S2 & S3).
  rewrite !length_append, !free_of_app.
  rewrite Y1, Y2, Y3, M1, M2, M3, D1, D2, D3, H1, H2, H3, I1, I2, I3, S1, S2, S3.
  done.
Qed.

Lemma currentTime_format_witness :
  ∃ y mo d h mi s,
    currentTime (H := glibc) (mk_tm 5 4 3 2 0 126)
    = (y ++ "-" ++ mo ++ "-" ++ d ++ " " ++ h ++ ":" ++ mi ++ ":" ++ s)%string
    ∧ field 4 y 2026 = true
    ∧ field 2 mo 1 = true
    ∧ field 2 d 2 = true
    ∧ field 2 h 3 = true
    ∧ field 2 mi 4 = true
    ∧ field 2 s 5 = true
    ∧ String.length (currentTime (H := glibc) (mk_tm 5 4 3 2 0 126)) = 19%nat
    ∧ free_of "|" (currentTime (H := glibc) (mk_tm 5 4 3 2 0 126)) = true
    ∧ free_of newline (currentTime (H := glibc) (mk_tm 5 4 3 2 0 126)) = true.
Proof.
  apply (currentTime_format (mk_tm 5 4 3 2 0 126)). unfold calendar. simpl. lia.
Defined.
